(** * Calculator MCP server: the four arithmetic tools

    A shallow embedding of [examples/calculator_mcp_server.py]: the tools
    [add], [multiply], [subtract] and [divide], each taking two Python
    floats and returning a formatted [str].

    Python floats are IEEE 754 binary64 values; they are modelled with the
    Standard Library's [spec_float] at precision 53 and exponent bound 1024.
    A Python [str] is modelled by its UTF-8 encoding as a [string]. *)

From Stdlib Require Import ZArith List String Ascii Bool Lia Permutation.
From Stdlib Require Import Floats.SpecFloat.
From Stdlib Require Import Numbers.DecimalString.
Import ListNotations.

Local Open Scope string_scope.

(** ** Python floats *)

Module PyFloat.

Definition prec : Z := 53.
Definition emax : Z := 1024.

Definition float : Type := spec_float.

Definition pos_zero : float := S754_zero false.
Definition neg_zero : float := S754_zero true.
Definition pos_inf : float := S754_infinity false.
Definition neg_inf : float := S754_infinity true.
Definition nan : float := S754_nan.

(** [float(z)] for a Python int [z]: the nearest double, ties to even. *)
Definition of_int (z : Z) : float := binary_normalize prec emax z 0 false.

(** [m * 2**e] rounded to a double; used to write literals. *)
Definition of_scaled (m e : Z) : float := binary_normalize prec emax m e false.

(** [x == y] on floats: [nan] is equal to nothing, the two zeros are equal. *)
Definition float_eq (x y : float) : bool := SFeqb x y.

(** The arithmetic of [float.__add__], [__sub__], [__mul__]: IEEE operations
    in round-to-nearest-even, which never raise. *)
Definition float_add (x y : float) : float := SFadd prec emax x y.
Definition float_sub (x y : float) : float := SFsub prec emax x y.
Definition float_mul (x y : float) : float := SFmul prec emax x y.

(** The quotient that [float.__truediv__] computes once the divisor has
    passed its zero test. *)
Definition float_quot (x y : float) : float := SFdiv prec emax x y.

(** *** [repr] of a float

    [format(x, '')] in an f-string is [repr(x)]: the shortest decimal
    digit string that reads back as [x], the nearest such when several
    have that length, laid out in fixed notation when the decimal point
    position lies in (-4, 16] and in exponent notation otherwise. *)

Section Shortest.
(** The finite positive double [m * 2**e]. *)
Variable m : positive.
Variable e : Z.

(** Everything is counted in units of [2**(e-2)], written [U / D]. *)
Definition unit_num : Z := 2 ^ Z.max (e - 2) 0.
Definition unit_den : Z := 2 ^ Z.max (2 - e) 0.

(** The gap below the least mantissa of a binade is half the gap above. *)
Definition binade_floor : bool :=
  (Z.pos m =? 2 ^ (prec - 1))%Z && (3 - emax - prec <? e)%Z.

Definition val_num : Z := 4 * Z.pos m * unit_num.
Definition low_num : Z :=
  (4 * Z.pos m - (if binade_floor then 1 else 2)) * unit_num.
Definition high_num : Z := (4 * Z.pos m + 2) * unit_num.

Definition pow10_up (q : Z) : Z := 10 ^ Z.max q 0.
Definition pow10_down (q : Z) : Z := 10 ^ Z.max (- q) 0.

(** [c * 10**q] against a bound [x / D]. *)
Definition cmp_dec (c q x : Z) : comparison :=
  (c * pow10_up q * unit_den ?= x * pow10_down q)%Z.

(** Does [c * 10**q] read back as this double?  The end points of the
    rounding interval belong to it exactly when the mantissa is even. *)
Definition reads_back (c q : Z) : bool :=
  let closed := Z.even (Z.pos m) in
  match cmp_dec c q low_num, cmp_dec c q high_num with
  | Gt, Lt => true
  | Eq, Lt | Gt, Eq | Eq, Eq => closed
  | _, _ => false
  end.

(** [floor (v / 10**q)]. *)
Definition floor_dec (q : Z) : Z :=
  ((val_num * pow10_down q) / (unit_den * pow10_up q))%Z.

(** Twice the remainder of that division against the divisor: which of
    [floor] and [floor + 1] is nearer. *)
Definition nearer (q : Z) : comparison :=
  let d := (unit_den * pow10_up q)%Z in
  (2 * ((val_num * pow10_down q) mod d) ?= d)%Z.

Definition round_dec (q : Z) : Z :=
  let c := floor_dec q in
  match nearer q with
  | Lt => c
  | Gt => c + 1
  | Eq => if Z.even c then c else c + 1
  end%Z.

(** The least [k] with [v < 10**k], searched upwards from [k0]. *)
Fixpoint decpt_from (fuel : nat) (k : Z) : Z :=
  match fuel with
  | O => k
  | S fuel' =>
      match (val_num * pow10_down k ?= unit_den * pow10_up k)%Z with
      | Lt => k
      | _ => decpt_from fuel' (k + 1)
      end
  end.

(** [2**(b-1) <= v < 2**b] for [b] the bit length of [m] plus [e], and
    [log10 2] lies between 0.30102 and 0.30103. *)
Definition decpt : Z :=
  let b := (Z.pos (digits2_pos m) + e)%Z in
  decpt_from 8 (((b - 1) * 30102) / 100000 - 2).

(** Digit counts [n], [n + 1], ... up to 17, which always suffices. *)
Fixpoint shortest_from (fuel : nat) (n : Z) : Z * Z :=
  let q := (decpt - n)%Z in
  let c := floor_dec q in
  match reads_back c q, reads_back (c + 1) q with
  | true, true => (round_dec q, q)
  | true, false => (c, q)
  | false, true => ((c + 1)%Z, q)
  | false, false =>
      match fuel with
      | O => (round_dec q, q)
      | S fuel' => shortest_from fuel' (n + 1)
      end
  end.

Definition shortest : Z * Z := shortest_from 16 1.
End Shortest.

Definition digits_of (c : Z) : string :=
  NilZero.string_of_uint (N.to_uint (Z.to_N c)).

Fixpoint zeros (n : nat) : string :=
  match n with
  | O => ""
  | S n' => String "0" (zeros n')
  end.

(** Drop the trailing zeros of a digit string, keeping one digit. *)
Fixpoint strip_zeros (s : string) : string :=
  match s with
  | "" => ""
  | String c s' =>
      match strip_zeros s' with
      | "" => if Ascii.eqb c "0" then "" else String c ""
      | t => String c t
      end
  end.

Definition significant (s : string) : string :=
  match strip_zeros s with
  | "" => "0"
  | t => t
  end.

(** The exponent field: a sign and at least two digits. *)
Definition exponent_field (x : Z) : string :=
  let d := digits_of (Z.abs x) in
  (if (x <? 0)%Z then "-" else "+") ++
  (if (String.length d <? 2)%nat then "0" ++ d else d).

(** Lay out the digits [ds] with the decimal point after [dp] of them. *)
Definition layout (ds : string) (dp : Z) : string :=
  let nd := Z.of_nat (String.length ds) in
  if ((dp <=? -4) || (16 <? dp))%Z then
    match ds with
    | "" => ""
    | String d "" => String d "" ++ "e" ++ exponent_field (dp - 1)
    | String d rest => String d "" ++ "." ++ rest ++ "e" ++ exponent_field (dp - 1)
    end
  else if (dp <=? 0)%Z then
    "0." ++ zeros (Z.to_nat (- dp)) ++ ds
  else if (nd <=? dp)%Z then
    ds ++ zeros (Z.to_nat (dp - nd)) ++ ".0"
  else
    substring 0 (Z.to_nat dp) ds ++ "." ++
    substring (Z.to_nat dp) (Z.to_nat (nd - dp)) ds.

Definition repr_finite (m : positive) (e : Z) : string :=
  let '(c, q) := shortest m e in
  let all := digits_of c in
  layout (significant all) (q + Z.of_nat (String.length all)).

Definition repr (x : float) : string :=
  match x with
  | S754_nan => "nan"
  | S754_infinity s => if s then "-inf" else "inf"
  | S754_zero s => if s then "-0.0" else "0.0"
  | S754_finite s m e => (if s then "-" else "") ++ repr_finite m e
  end.

End PyFloat.

Import PyFloat.

(** ** Python strings *)

(** [needle in hay] on [str]. *)
Fixpoint contains (needle hay : string) : bool :=
  String.prefix needle hay ||
  match hay with
  | "" => false
  | String _ rest => contains needle rest
  end.

(** An f-string is a sequence of literal pieces and replacement fields; a
    field with no format spec on a float is [format(x, '')], its [repr]. *)
Inductive fpart : Type :=
| Lit (s : string)
| Field (x : float).

Definition format_value (x : float) : string := repr x.

Fixpoint fstring (parts : list fpart) : string :=
  match parts with
  | [] => ""
  | Lit s :: rest => s ++ fstring rest
  | Field x :: rest => format_value x ++ fstring rest
  end.

(** ** The interpreter's effects

    A tool body runs against the module's globals, may evaluate arithmetic
    operators, and either returns a value or raises. *)

(** The server object bound to the global [mcp], with the tools registered
    on it by the [@mcp.tool()] decorators, in order. *)
Record server : Type := {
  server_name : string;
  server_instructions : string;
  server_tools : list string
}.

Definition mcp : server := {|
  server_name := "calculator";
  server_instructions := "A simple calculator that can add and multiply numbers.";
  server_tools := ["add"; "multiply"; "subtract"; "divide"]
|}.

Inductive pyexn : Type :=
| ZeroDivisionError.

Inductive arith : Type :=
| OpAdd
| OpSub
| OpMul
| OpTrueDiv.

(** One evaluation of a binary arithmetic operator on two floats. *)
Record event : Type := {
  ev_op : arith;
  ev_lhs : float;
  ev_rhs : float
}.

Record outcome (A : Type) : Type := {
  final : server;
  performed : list event;
  value : pyexn + A
}.

Arguments final {A} _.
Arguments performed {A} _.
Arguments value {A} _.

Definition M (A : Type) : Type := server -> outcome A.

Definition ret {A : Type} (x : A) : M A :=
  fun g => {| final := g; performed := []; value := inr x |}.

Definition raise {A : Type} (e : pyexn) : M A :=
  fun g => {| final := g; performed := []; value := inl e |}.

Definition bind {A B : Type} (c : M A) (k : A -> M B) : M B :=
  fun g =>
    let r := c g in
    match value r with
    | inl e => {| final := final r; performed := performed r; value := inl e |}
    | inr x =>
        let r' := k x (final r) in
        {| final := final r';
           performed := performed r ++ performed r';
           value := value r' |}
    end.

Notation "x <- c ;; k" := (bind c (fun x => k))
  (at level 61, c at next level, right associativity).

(** Record that an operator is evaluated on two operands. *)
Definition evaluate (op : arith) (x y : float) : M unit :=
  fun g => {| final := g;
              performed := [{| ev_op := op; ev_lhs := x; ev_rhs := y |}];
              value := inr tt |}.

Definition py_add (x y : float) : M float :=
  _ <- evaluate OpAdd x y ;; ret (float_add x y).

Definition py_sub (x y : float) : M float :=
  _ <- evaluate OpSub x y ;; ret (float_sub x y).

Definition py_mul (x y : float) : M float :=
  _ <- evaluate OpMul x y ;; ret (float_mul x y).

(** [x / y] on floats raises [ZeroDivisionError] when [y == 0.0]. *)
Definition py_truediv (x y : float) : M float :=
  _ <- evaluate OpTrueDiv x y ;;
  if float_eq y pos_zero then raise ZeroDivisionError
  else ret (float_quot x y).

(** ** The tools *)

(** The operator literals of [multiply] and [divide] are not ASCII.  They are
    given by the bytes of the source file: E0 B8 A3 C2 97 in [multiply]
    and E0 B8 A3 E0 B8 97 in [divide]. *)
Definition MULTIPLY_OP : string :=
  String "224" (String "184" (String "163" (String "194" (String "151" "")))).

Definition DIVIDE_OP : string :=
  String "224" (String "184" (String "163"
    (String "224" (String "184" (String "151" ""))))).

Definition DIVIDE_BY_ZERO : string := "Error: Cannot divide by zero".

Definition add (a b : float) : M string :=
  result <- py_add a b ;;
  ret (fstring [Lit "The result of "; Field a; Lit " + "; Field b;
                Lit " = "; Field result]).

Definition multiply (a b : float) : M string :=
  result <- py_mul a b ;;
  ret (fstring [Lit "The result of "; Field a; Lit (" " ++ MULTIPLY_OP ++ " ");
                Field b; Lit " = "; Field result]).

Definition subtract (a b : float) : M string :=
  result <- py_sub a b ;;
  ret (fstring [Lit "The result of "; Field a; Lit " - "; Field b;
                Lit " = "; Field result]).

Definition divide (a b : float) : M string :=
  if float_eq b (of_int 0) then ret DIVIDE_BY_ZERO
  else
    result <- py_truediv a b ;;
    ret (fstring [Lit "The result of "; Field a; Lit (" " ++ DIVIDE_OP ++ " ");
                  Field b; Lit " = "; Field result]).

(** ** Calls in sequence *)

Inductive tool : Type :=
| ToolAdd
| ToolMultiply
| ToolSubtract
| ToolDivide.

Definition tool_name (t : tool) : string :=
  match t with
  | ToolAdd => "add"
  | ToolMultiply => "multiply"
  | ToolSubtract => "subtract"
  | ToolDivide => "divide"
  end.

Definition tool_body (t : tool) : float -> float -> M string :=
  match t with
  | ToolAdd => add
  | ToolMultiply => multiply
  | ToolSubtract => subtract
  | ToolDivide => divide
  end.

Record call : Type := {
  callee : tool;
  arg_a : float;
  arg_b : float
}.

Definition invoke (c : call) : M string :=
  tool_body (callee c) (arg_a c) (arg_b c).

(** Serve the calls one after the other, each on the globals its
    predecessor left behind; collect what each hands back to its caller. *)
Fixpoint serve (cs : list call) (g : server) : server * list (pyexn + string) :=
  match cs with
  | [] => (g, [])
  | c :: rest =>
      let r := invoke c g in
      let '(g', answers) := serve rest (final r) in
      (g', value r :: answers)
  end.

(** ** The texts as the specification words them *)

Module Spec.

Definition result_text (a : float) (op : string) (b result : float) : string :=
  "The result of " ++ repr a ++ " " ++ op ++ " " ++ repr b ++ " = " ++ repr result.

Definition add_text (a b : float) : string :=
  result_text a "+" b (float_add a b).

Definition subtract_text (a b : float) : string :=
  result_text a "-" b (float_sub a b).

Definition multiply_text (a b : float) : string :=
  result_text a "*" b (float_mul a b).

Definition divide_text (a b : float) : string :=
  result_text a "/" b (float_quot a b).

End Spec.

(** A result sentence, as opposed to the error sentinel. *)
Definition is_result_text (s : string) : bool :=
  String.prefix "The result of " s.

(** The single operator evaluation of a tool body that reaches its
    arithmetic. *)
Definition did (op : arith) (a b : float) : list event :=
  [{| ev_op := op; ev_lhs := a; ev_rhs := b |}].

(** What a call hands back when it is the only call ever made. *)
Definition answer (c : call) : pyexn + string := value (invoke c mcp).

(** ** Alphabets *)

Fixpoint char_in (c : ascii) (alphabet : string) : bool :=
  match alphabet with
  | "" => false
  | String d rest => Ascii.eqb c d || char_in c rest
  end.

(** Every character of [s] satisfies [p]. *)
Fixpoint all_chars (p : ascii -> bool) (s : string) : bool :=
  match s with
  | "" => true
  | String c rest => p c && all_chars p rest
  end.

Definition is_digit_char (c : ascii) : bool := char_in c "0123456789".

(** The characters a rendered float is made of. *)
Definition is_repr_char (c : ascii) : bool := char_in c "0123456789.e+-infa".

Definition is_space (c : ascii) : bool := Ascii.eqb c " ".

Definition not_space (c : ascii) : bool := negb (is_space c).

(** A seven-bit character: one byte of UTF-8 that is a code point of its
    own. *)
Definition is_ascii_char (c : ascii) : bool :=
  match c with
  | Ascii _ _ _ _ _ _ _ top => negb top
  end.

(** The operator literal and the arithmetic of each tool. *)
Definition tool_op (t : tool) : string :=
  match t with
  | ToolAdd => "+"
  | ToolMultiply => MULTIPLY_OP
  | ToolSubtract => "-"
  | ToolDivide => DIVIDE_OP
  end.

Definition tool_result (t : tool) : float -> float -> float :=
  match t with
  | ToolAdd => float_add
  | ToolMultiply => float_mul
  | ToolSubtract => float_sub
  | ToolDivide => float_quot
  end.

(** The guard of a tool: only [divide] has one. *)
Definition tool_guard (t : tool) (b : float) : bool :=
  match t with
  | ToolDivide => float_eq b (of_int 0)
  | _ => false
  end.

(** The mantissa [P] shifted left to the full width of 53 bits. *)
Definition full_width (P : positive) : positive :=
  Z.to_pos (Z.pos P * 2 ^ (53 - Z.pos (digits2_pos P))).

(** ** Facts about strings *)

Section StringFacts.

Lemma append_empty_r (s : string) : s ++ "" = s.
Proof.
  induction s as [|c s IH]; simpl; [reflexivity | now rewrite IH].
Qed.

Lemma append_assoc3 (s t u : string) : (s ++ t) ++ u = s ++ t ++ u.
Proof.
  induction s as [|c s IH]; simpl; [reflexivity | now rewrite IH].
Qed.

Lemma prefix_append (p s : string) : String.prefix p (p ++ s) = true.
Proof.
  induction p as [|c p IH]; simpl.
  - now destruct s.
  - destruct (ascii_dec c c) as [_|ne]; [exact IH | now elim ne].
Qed.

Lemma prefix_split (p s : string) :
  String.prefix p s = true -> exists q, s = p ++ q.
Proof.
  revert s; induction p as [|c p IH]; intros s H.
  - now exists s.
  - destruct s as [|d s]; simpl in H; [discriminate|].
    destruct (ascii_dec c d) as [->|_]; [|discriminate].
    destruct (IH s H) as [q ->]. now exists q.
Qed.

Lemma contains_head (n h : string) :
  String.prefix n h = true -> contains n h = true.
Proof.
  intros H. destruct h; simpl; simpl in H; rewrite H; reflexivity.
Qed.

Lemma contains_after (n p h : string) :
  contains n h = true -> contains n (p ++ h) = true.
Proof.
  intros H. induction p as [|c p IH]; simpl; [exact H|].
  rewrite IH. apply orb_true_r.
Qed.

Lemma contains_infix (n p q : string) : contains n (p ++ n ++ q) = true.
Proof.
  apply contains_after, contains_head, prefix_append.
Qed.

Lemma contains_suffix (n p : string) : contains n (p ++ n) = true.
Proof.
  rewrite <- (append_empty_r n) at 2. apply contains_infix.
Qed.

(** [contains] decides the substring relation. *)
Lemma contains_iff (n h : string) :
  contains n h = true <-> exists p q, h = p ++ n ++ q.
Proof.
  split.
  - induction h as [|c h IH]; cbn [contains]; intros H.
    + rewrite orb_false_r in H.
      destruct (prefix_split _ _ H) as [q ->]. now exists "", q.
    + apply orb_true_iff in H. destruct H as [H|H].
      * destruct (prefix_split _ _ H) as [q ->]. now exists "", q.
      * destruct (IH H) as (p & q & ->). now exists (String c p), q.
  - intros (p & q & ->). apply contains_infix.
Qed.

End StringFacts.

(** ** Facts about [repr] *)

Section ReprFacts.

Lemma significant_not_empty (s : string) : significant s <> "".
Proof.
  unfold significant. destruct (strip_zeros s); discriminate.
Qed.

Lemma append_not_empty_l (s t : string) : s <> "" -> s ++ t <> "".
Proof.
  destruct s; [congruence | discriminate].
Qed.

Lemma layout_not_empty (ds : string) (dp : Z) : ds <> "" -> layout ds dp <> "".
Proof.
  intros Hds. unfold layout.
  destruct ((dp <=? -4)%Z || (16 <? dp)%Z).
  - destruct ds as [|d [|d' rest]]; [congruence | discriminate | discriminate].
  - destruct (dp <=? 0)%Z; [discriminate|].
    destruct (Z.of_nat (String.length ds) <=? dp)%Z.
    + now apply append_not_empty_l.
    + destruct (substring 0 (Z.to_nat dp) ds); discriminate.
Qed.

(** The rendering of a float is never the empty string, so that
    containing it says something. *)
Lemma repr_not_empty (x : float) : repr x <> "".
Proof.
  destruct x as [s|s| |s m e]; simpl; try (destruct s; discriminate).
  - discriminate.
  - assert (H : repr_finite m e <> "").
    { unfold repr_finite. destruct (shortest m e) as [c q].
      apply layout_not_empty, significant_not_empty. }
    destruct s; simpl; [discriminate | exact H].
Qed.

(** [b == 0] holds of the two zeros and of nothing else. *)
Lemma float_eq_zero (b : float) :
  float_eq b (of_int 0) = true <-> exists s, b = S754_zero s.
Proof.
  split.
  - destruct b as [s|s| |s m e]; simpl; intros H.
    + now exists s.
    + destruct s; discriminate.
    + discriminate.
    + destruct s; discriminate.
  - intros [s ->]. reflexivity.
Qed.

End ReprFacts.

(** ** What each tool does *)

Section Runs.

Variables a b : float.
Variable g : server.

Lemma add_run :
  add a b g =
  {| final := g; performed := did OpAdd a b;
     value := inr (Spec.result_text a "+" b (float_add a b)) |}.
Proof.
  unfold add, py_add, bind, evaluate, ret, Spec.result_text, format_value.
  simpl. now rewrite append_empty_r.
Qed.

Lemma subtract_run :
  subtract a b g =
  {| final := g; performed := did OpSub a b;
     value := inr (Spec.result_text a "-" b (float_sub a b)) |}.
Proof.
  unfold subtract, py_sub, bind, evaluate, ret, Spec.result_text, format_value.
  simpl. now rewrite append_empty_r.
Qed.

Lemma multiply_run :
  multiply a b g =
  {| final := g; performed := did OpMul a b;
     value := inr (Spec.result_text a MULTIPLY_OP b (float_mul a b)) |}.
Proof.
  unfold multiply, py_mul, bind, evaluate, ret, Spec.result_text, format_value.
  simpl. now rewrite append_empty_r.
Qed.

Lemma divide_run_zero :
  float_eq b (of_int 0) = true ->
  divide a b g =
  {| final := g; performed := []; value := inr DIVIDE_BY_ZERO |}.
Proof.
  intros H. unfold divide. now rewrite H.
Qed.

Lemma divide_run_nonzero :
  float_eq b (of_int 0) = false ->
  divide a b g =
  {| final := g; performed := did OpTrueDiv a b;
     value := inr (Spec.result_text a DIVIDE_OP b (float_quot a b)) |}.
Proof.
  intros H. unfold divide. rewrite H.
  unfold py_truediv, bind, evaluate, raise, ret, Spec.result_text, format_value.
  change (of_int 0) with pos_zero in H. simpl. rewrite H.
  simpl. now rewrite append_empty_r.
Qed.

End Runs.

(** ** Calls do not see one another *)

Section Purity.

Lemma tool_body_final (t : tool) (a b : float) (g : server) :
  final (tool_body t a b g) = g.
Proof.
  destruct t; cbn [tool_body].
  - now rewrite add_run.
  - now rewrite multiply_run.
  - now rewrite subtract_run.
  - destruct (float_eq b (of_int 0)) eqn:Hb.
    + now rewrite divide_run_zero.
    + now rewrite divide_run_nonzero.
Qed.

Lemma tool_body_value (t : tool) (a b : float) (g g' : server) :
  value (tool_body t a b g) = value (tool_body t a b g').
Proof.
  destruct t; cbn [tool_body].
  - now rewrite !add_run.
  - now rewrite !multiply_run.
  - now rewrite !subtract_run.
  - destruct (float_eq b (of_int 0)) eqn:Hb.
    + now rewrite !divide_run_zero.
    + now rewrite !divide_run_nonzero.
Qed.

Lemma serve_answers (cs : list call) (g : server) :
  serve cs g = (g, map answer cs).
Proof.
  induction cs as [|c cs IH]; cbn [serve map]; [reflexivity|].
  unfold invoke at 1. rewrite tool_body_final, IH.
  unfold answer at 2, invoke. now rewrite (tool_body_value _ _ _ g mcp).
Qed.

(** Serving the same calls in another order gives the same answers, in
    that other order. *)
Lemma serve_permutation (cs cs' : list call) (g : server) :
  Permutation cs cs' ->
  Permutation (snd (serve cs g)) (snd (serve cs' g)).
Proof.
  intros H. rewrite !serve_answers. simpl. now apply Permutation_map.
Qed.

End Purity.

(** On a negative zero the IEEE quotient of a finite number would be an
    infinity of the opposite sign. *)
Lemma ieee_quot_neg_zero (s : bool) (m : positive) (e : Z) :
  float_quot (S754_finite s m e) neg_zero = S754_infinity (negb s).
Proof.
  destruct s; reflexivity.
Qed.

Lemma sentinel_is_not_result_text : is_result_text DIVIDE_BY_ZERO = false.
Proof. reflexivity. Qed.

Lemma result_text_is_result_text (a : float) (op : string) (b r : float) :
  is_result_text (Spec.result_text a op b r) = true.
Proof.
  unfold is_result_text, Spec.result_text. apply prefix_append.
Qed.

Lemma result_text_not_sentinel (a : float) (op : string) (b r : float) :
  Spec.result_text a op b r <> DIVIDE_BY_ZERO.
Proof.
  unfold Spec.result_text, DIVIDE_BY_ZERO. simpl. discriminate.
Qed.

Lemma result_text_contains_result (a : float) (op : string) (b r : float) :
  contains (repr r) (Spec.result_text a op b r) = true.
Proof.
  unfold Spec.result_text.
  rewrite <- !append_assoc3. apply contains_suffix.
Qed.

(** ** The scenarios of the specification *)

Example scenario_add :
  value (add (of_int 2) (of_int 3) mcp) = inr "The result of 2.0 + 3.0 = 5.0".
Proof. vm_compute. reflexivity. Qed.

Example scenario_subtract :
  value (subtract (of_int 10) (of_int 4) mcp) = inr "The result of 10.0 - 4.0 = 6.0".
Proof. vm_compute. reflexivity. Qed.

Example scenario_multiply :
  value (multiply (of_int 3) (of_int 7) mcp) =
  inr ("The result of 3.0 " ++ MULTIPLY_OP ++ " 7.0 = 21.0").
Proof. vm_compute. reflexivity. Qed.

Example scenario_divide :
  value (divide (of_int 10) (of_int 2) mcp) =
  inr ("The result of 10.0 " ++ DIVIDE_OP ++ " 2.0 = 5.0").
Proof. vm_compute. reflexivity. Qed.

Example scenario_divide_zero :
  value (divide (of_int 5) (of_int 0) mcp) = inr "Error: Cannot divide by zero".
Proof. vm_compute. reflexivity. Qed.

Example scenario_rounding :
  value (add (float_quot (of_int 1) (of_int 10)) (float_quot (of_int 2) (of_int 10)) mcp) =
  inr "The result of 0.1 + 0.2 = 0.30000000000000004".
Proof. vm_compute. reflexivity. Qed.

Example scenario_overflow :
  value (multiply (of_int (10 ^ 200)) (of_int (10 ^ 200)) mcp) =
  inr ("The result of 1e+200 " ++ MULTIPLY_OP ++ " 1e+200 = inf").
Proof. vm_compute. reflexivity. Qed.

Example scenario_nan_divisor :
  value (divide (of_int 5) nan mcp) =
  inr ("The result of 5.0 " ++ DIVIDE_OP ++ " nan = nan").
Proof. vm_compute. reflexivity. Qed.

(** ** The claims *)

(** C1: whenever the divisor compares equal to 0, [divide a b] returns
    exactly "Error: Cannot divide by zero", and no arithmetic operator is
    evaluated on the way: the division [a / b] is not performed. *)
Theorem divide_zero_returns_sentinel (a b : float) (g : server) :
  float_eq b (of_int 0) = true ->
  divide a b g =
  {| final := g; performed := []; value := inr "Error: Cannot divide by zero" |}.
Proof.
  intros Hb. now apply divide_run_zero.
Qed.

Lemma divide_zero_returns_sentinel_witness :
  float_eq (of_int 0) (of_int 0) = true /\
  divide (of_int 5) (of_int 0) mcp =
  {| final := mcp; performed := []; value := inr "Error: Cannot divide by zero" |}.
Proof.
  split; [reflexivity|].
  apply (divide_zero_returns_sentinel (of_int 5) (of_int 0) mcp). reflexivity.
Defined.

(** C2, as the specification states it, fails: the operands of [divide] are
    not joined by the character '/'.  At [divide(10.0, 2.0)] the divisor is
    not zero and the returned string is not
    "The result of 10.0 / 2.0 = 5.0". *)
Lemma divide_slash_refuted :
  float_eq (of_int 2) (of_int 0) = false /\
  Spec.divide_text (of_int 10) (of_int 2) = "The result of 10.0 / 2.0 = 5.0" /\
  value (divide (of_int 10) (of_int 2) mcp) <>
  inr (Spec.divide_text (of_int 10) (of_int 2)).
Proof.
  split; [reflexivity|]. split; [vm_compute; reflexivity|].
  vm_compute. intros H. discriminate H.
Qed.

(** C2, amended: for all floats [a] and [b] with [b != 0], [divide a b]
    returns exactly "The result of {a} OP {b} = {a/b}", where OP is the
    operator literal written in the source of [divide]; that literal is
    not the character '/' and does not contain it. *)
Theorem divide_returns_result_text (a b : float) (g : server) :
  float_eq b (of_int 0) = false ->
  value (divide a b g) =
  inr ("The result of " ++ repr a ++ " " ++ DIVIDE_OP ++ " " ++ repr b ++
       " = " ++ repr (float_quot a b)) /\
  contains "/" DIVIDE_OP = false.
Proof.
  intros Hb. split; [|reflexivity].
  now rewrite divide_run_nonzero.
Qed.

Lemma divide_returns_result_text_witness :
  float_eq (of_int 2) (of_int 0) = false /\
  value (divide (of_int 10) (of_int 2) mcp) =
  inr ("The result of " ++ repr (of_int 10) ++ " " ++ DIVIDE_OP ++ " " ++
       repr (of_int 2) ++ " = " ++ repr (float_quot (of_int 10) (of_int 2))).
Proof.
  split; [reflexivity|].
  apply (divide_returns_result_text (of_int 10) (of_int 2) mcp). reflexivity.
Defined.

(** C3, as the specification states it, fails: the operands of [multiply]
    are not joined by the character '*'.  At [multiply(3.0, 7.0)] the
    returned string is not "The result of 3.0 * 7.0 = 21.0". *)
Lemma multiply_star_refuted :
  Spec.multiply_text (of_int 3) (of_int 7) = "The result of 3.0 * 7.0 = 21.0" /\
  value (multiply (of_int 3) (of_int 7) mcp) <>
  inr (Spec.multiply_text (of_int 3) (of_int 7)).
Proof.
  split; [vm_compute; reflexivity|].
  vm_compute. intros H. discriminate H.
Qed.

(** C3, amended: for all floats [a] and [b], [multiply a b] returns exactly
    "The result of {a} OP {b} = {a*b}", where OP is the operator literal
    written in the source of [multiply]; that literal is not the character
    '*' and does not contain it. *)
Theorem multiply_returns_result_text (a b : float) (g : server) :
  value (multiply a b g) =
  inr ("The result of " ++ repr a ++ " " ++ MULTIPLY_OP ++ " " ++ repr b ++
       " = " ++ repr (float_mul a b)) /\
  contains "*" MULTIPLY_OP = false.
Proof.
  split; [|reflexivity].
  now rewrite multiply_run.
Qed.

(** C4: for all floats [a] and [b], [add a b] returns exactly
    "The result of {a} + {b} = {a+b}", and the rendering of the sum occurs
    in that string. *)
Theorem add_returns_result_text (a b : float) (g : server) :
  exists s,
    value (add a b g) = inr s /\
    s = "The result of " ++ repr a ++ " + " ++ repr b ++ " = " ++
        repr (float_add a b) /\
    contains (repr (float_add a b)) s = true.
Proof.
  exists (Spec.add_text a b). rewrite add_run. split; [reflexivity|].
  split; [reflexivity|]. apply result_text_contains_result.
Qed.

(** C5: for all floats [a] and [b], [subtract a b] returns exactly
    "The result of {a} - {b} = {a-b}", and the rendering of the difference
    occurs in that string. *)
Theorem subtract_returns_result_text (a b : float) (g : server) :
  exists s,
    value (subtract a b g) = inr s /\
    s = "The result of " ++ repr a ++ " - " ++ repr b ++ " = " ++
        repr (float_sub a b) /\
    contains (repr (float_sub a b)) s = true.
Proof.
  exists (Spec.subtract_text a b). rewrite subtract_run. split; [reflexivity|].
  split; [reflexivity|]. apply result_text_contains_result.
Qed.

(** C6: for all floats [a] and [b], the string returned by [multiply a b]
    contains the product: its rendering, which is never empty, is a
    substring of the result. *)
Theorem multiply_contains_product (a b : float) (g : server) :
  exists s,
    value (multiply a b g) = inr s /\
    contains (repr (float_mul a b)) s = true /\
    repr (float_mul a b) <> "".
Proof.
  eexists. rewrite multiply_run. split; [reflexivity|].
  split; [apply result_text_contains_result | apply repr_not_empty].
Qed.

(** C7: for all floats [a] and [b] with [b != 0], the string returned by
    [divide a b] contains the quotient: its rendering, which is never
    empty, is a substring of the result. *)
Theorem divide_contains_quotient (a b : float) (g : server) :
  float_eq b (of_int 0) = false ->
  exists s,
    value (divide a b g) = inr s /\
    contains (repr (float_quot a b)) s = true /\
    repr (float_quot a b) <> "".
Proof.
  intros Hb. eexists. rewrite divide_run_nonzero by exact Hb.
  split; [reflexivity|].
  split; [apply result_text_contains_result | apply repr_not_empty].
Qed.

Lemma divide_contains_quotient_witness :
  float_eq (of_int 2) (of_int 0) = false /\
  exists s,
    value (divide (of_int 10) (of_int 2) mcp) = inr s /\
    contains (repr (float_quot (of_int 10) (of_int 2))) s = true /\
    repr (float_quot (of_int 10) (of_int 2)) <> "".
Proof.
  split; [reflexivity|].
  apply (divide_contains_quotient (of_int 10) (of_int 2) mcp). reflexivity.
Defined.

(** C8: division by zero is the only error condition.  For every input,
    [add], [subtract] and [multiply] return a result sentence, never the
    error sentinel; [divide] returns the sentinel if and only if [b == 0]
    and a result sentence otherwise; and none of the four raises. *)
Theorem zero_division_only_error (a b : float) (g : server) :
  (exists s, value (add a b g) = inr s /\
             is_result_text s = true /\ s <> DIVIDE_BY_ZERO) /\
  (exists s, value (subtract a b g) = inr s /\
             is_result_text s = true /\ s <> DIVIDE_BY_ZERO) /\
  (exists s, value (multiply a b g) = inr s /\
             is_result_text s = true /\ s <> DIVIDE_BY_ZERO) /\
  (exists s, value (divide a b g) = inr s /\
             (s = DIVIDE_BY_ZERO <-> float_eq b (of_int 0) = true) /\
             is_result_text s = negb (float_eq b (of_int 0))).
Proof.
  repeat split.
  - eexists. rewrite add_run. split; [reflexivity|].
    split; [apply result_text_is_result_text | apply result_text_not_sentinel].
  - eexists. rewrite subtract_run. split; [reflexivity|].
    split; [apply result_text_is_result_text | apply result_text_not_sentinel].
  - eexists. rewrite multiply_run. split; [reflexivity|].
    split; [apply result_text_is_result_text | apply result_text_not_sentinel].
  - destruct (float_eq b (of_int 0)) eqn:Hb.
    + eexists. rewrite divide_run_zero by exact Hb.
      split; [reflexivity|]. split; [tauto | reflexivity].
    + eexists. rewrite divide_run_nonzero by exact Hb.
      split; [reflexivity|]. split.
      * split; [intros H; now apply result_text_not_sentinel in H | discriminate].
      * apply result_text_is_result_text.
Qed.

(** C9: each tool is a pure, stateless, deterministic function of its two
    arguments.  What a tool returns is the same whatever globals it runs
    against, and it leaves them as they were; so a sequence of calls gets,
    call by call, the answers the calls would get alone, and the answer to
    a call is the same whatever calls come before or after it. *)
Theorem tools_pure_and_order_insensitive :
  (forall (t : tool) (a b : float) (g g' : server),
      value (tool_body t a b g) = value (tool_body t a b g') /\
      final (tool_body t a b g) = g) /\
  (forall (cs : list call) (g : server),
      serve cs g = (g, map answer cs)) /\
  (forall (before after : list call) (c : call) (g : server),
      nth_error (snd (serve (before ++ c :: after) g)) (List.length before) =
      Some (answer c)).
Proof.
  split; [|split].
  - intros t a b g g'. split; [apply tool_body_value | apply tool_body_final].
  - apply serve_answers.
  - intros before after c g. rewrite serve_answers. cbn [snd].
    rewrite map_app. cbn [map].
    rewrite nth_error_app2 by (rewrite length_map; lia).
    rewrite length_map, Nat.sub_diag. reflexivity.
Qed.

(** C10: the guard [b == 0] is a floating-point comparison, which a
    negative zero satisfies: for every [a], [divide a (-0.0)] returns
    "Error: Cannot divide by zero" with no division performed, and not a
    result sentence carrying the IEEE quotient. *)
Theorem divide_negative_zero_sentinel (a : float) (g : server) :
  float_eq neg_zero (of_int 0) = true /\
  divide a neg_zero g =
  {| final := g; performed := []; value := inr "Error: Cannot divide by zero" |} /\
  value (divide a neg_zero g) <>
  inr ("The result of " ++ repr a ++ " " ++ DIVIDE_OP ++ " " ++ repr neg_zero ++
       " = " ++ repr (float_quot a neg_zero)).
Proof.
  split; [reflexivity|]. split.
  - apply divide_run_zero. reflexivity.
  - rewrite divide_run_zero by reflexivity. cbn [value].
    intros H. injection H as H. discriminate H.
Qed.

(** ** Further properties of the tools *)

Section Alphabet.

Lemma all_chars_append (p : ascii -> bool) (s t : string) :
  all_chars p (s ++ t) = all_chars p s && all_chars p t.
Proof.
  induction s as [|c s IH]; simpl; [reflexivity|].
  now rewrite IH, andb_assoc.
Qed.

Lemma all_chars_weaken (p q : ascii -> bool) (s : string) :
  (forall c, p c = true -> q c = true) ->
  all_chars p s = true -> all_chars q s = true.
Proof.
  intros Hpq. induction s as [|c s IH]; simpl; [reflexivity|].
  intros H. apply andb_true_iff in H. destruct H as [Hc Hs].
  now rewrite (Hpq c Hc), (IH Hs).
Qed.

Lemma all_chars_substring (p : ascii -> bool) (s : string) (n m : nat) :
  all_chars p s = true -> all_chars p (substring n m s) = true.
Proof.
  revert n m. induction s as [|c s IH]; intros n m H.
  - now destruct n, m.
  - simpl in H. apply andb_true_iff in H. destruct H as [Hc Hs].
    destruct n as [|n]; simpl.
    + destruct m as [|m]; simpl; [reflexivity|].
      now rewrite Hc, (IH 0%nat m Hs).
    + now apply IH.
Qed.

Lemma digit_is_repr_char (c : ascii) :
  is_digit_char c = true -> is_repr_char c = true.
Proof.
  unfold is_digit_char, is_repr_char. simpl. intros H.
  repeat (apply orb_true_iff in H; destruct H as [H|H];
          [rewrite H; rewrite ?orb_true_r; reflexivity|]).
  discriminate H.
Qed.

Lemma repr_char_not_space (c : ascii) :
  is_repr_char c = true -> not_space c = true.
Proof.
  unfold is_repr_char, not_space, is_space. simpl. intros H.
  repeat (apply orb_true_iff in H; destruct H as [H|H];
          [apply Ascii.eqb_eq in H; subst c; reflexivity|]).
  discriminate H.
Qed.

Lemma repr_char_is_ascii (c : ascii) :
  is_repr_char c = true -> is_ascii_char c = true.
Proof.
  unfold is_repr_char. simpl. intros H.
  repeat (apply orb_true_iff in H; destruct H as [H|H];
          [apply Ascii.eqb_eq in H; subst c; reflexivity|]).
  discriminate H.
Qed.

Lemma uint_digits (d : Decimal.uint) :
  all_chars is_digit_char (NilEmpty.string_of_uint d) = true.
Proof.
  induction d; simpl; try reflexivity; exact IHd.
Qed.

Lemma digits_of_digits (c : Z) : all_chars is_digit_char (digits_of c) = true.
Proof.
  unfold digits_of, NilZero.string_of_uint.
  destruct (N.to_uint (Z.to_N c)) eqn:E; try reflexivity;
    rewrite <- E; apply uint_digits.
Qed.

Lemma zeros_digits (n : nat) : all_chars is_digit_char (zeros n) = true.
Proof.
  induction n; simpl; [reflexivity | exact IHn].
Qed.

Lemma strip_zeros_chars (p : ascii -> bool) (s : string) :
  all_chars p s = true -> all_chars p (strip_zeros s) = true.
Proof.
  induction s as [|c s IH]; simpl; [reflexivity|].
  intros H. apply andb_true_iff in H. destruct H as [Hc Hs].
  specialize (IH Hs). destruct (strip_zeros s) as [|d t].
  - destruct (Ascii.eqb c "0"); simpl; [reflexivity | now rewrite Hc].
  - change (all_chars p (String c (String d t)) = true).
    cbn [all_chars]. rewrite Hc. exact IH.
Qed.

Lemma significant_digits (s : string) :
  all_chars is_digit_char s = true ->
  all_chars is_digit_char (significant s) = true.
Proof.
  intros H. unfold significant.
  pose proof (strip_zeros_chars _ _ H) as Hs.
  destruct (strip_zeros s); [reflexivity | exact Hs].
Qed.

End Alphabet.

Section ReprAlphabet.

Lemma digits_are_repr_chars (s : string) :
  all_chars is_digit_char s = true -> all_chars is_repr_char s = true.
Proof.
  apply all_chars_weaken, digit_is_repr_char.
Qed.

Lemma exponent_field_chars (x : Z) :
  all_chars is_repr_char (exponent_field x) = true.
Proof.
  unfold exponent_field. rewrite all_chars_append.
  apply andb_true_iff. split.
  - now destruct (x <? 0)%Z.
  - pose proof (digits_are_repr_chars _ (digits_of_digits (Z.abs x))) as Hd.
    destruct (String.length (digits_of (Z.abs x)) <? 2)%nat; [|exact Hd].
    rewrite all_chars_append, Hd. reflexivity.
Qed.

Lemma layout_chars (ds : string) (dp : Z) :
  all_chars is_digit_char ds = true ->
  all_chars is_repr_char (layout ds dp) = true.
Proof.
  intros Hds. pose proof (digits_are_repr_chars _ Hds) as Hr.
  unfold layout.
  destruct ((dp <=? -4)%Z || (16 <? dp)%Z).
  - destruct ds as [|d [|d' rest]]; [reflexivity| |].
    + rewrite !all_chars_append, exponent_field_chars, Hr. reflexivity.
    + remember (String d' rest) as tl eqn:Etl.
      cbn [all_chars] in Hr. apply andb_true_iff in Hr. destruct Hr as [Hd Htl].
      rewrite !all_chars_append, exponent_field_chars, Htl.
      cbn [all_chars]. rewrite Hd. reflexivity.
  - destruct (dp <=? 0)%Z.
    + rewrite !all_chars_append, Hr,
        (digits_are_repr_chars _ (zeros_digits _)). reflexivity.
    + destruct (Z.of_nat (String.length ds) <=? dp)%Z.
      * rewrite !all_chars_append, Hr,
          (digits_are_repr_chars _ (zeros_digits _)). reflexivity.
      * rewrite !all_chars_append, !(all_chars_substring _ _ _ _ Hr).
        reflexivity.
Qed.

(** A rendered float is written with digits, the point, the exponent
    letter, the signs and the letters of "inf" and "nan" only. *)
Lemma repr_chars (x : float) : all_chars is_repr_char (repr x) = true.
Proof.
  destruct x as [s|s| |s m e]; simpl.
  - now destruct s.
  - now destruct s.
  - reflexivity.
  - rewrite all_chars_append. apply andb_true_iff. split.
    + now destruct s.
    + unfold repr_finite. destruct (shortest m e) as [c q].
      apply layout_chars, significant_digits, digits_of_digits.
Qed.

Lemma repr_no_space (x : float) : all_chars not_space (repr x) = true.
Proof.
  apply (all_chars_weaken is_repr_char); [apply repr_char_not_space|].
  apply repr_chars.
Qed.

Lemma repr_is_ascii (x : float) : all_chars is_ascii_char (repr x) = true.
Proof.
  apply (all_chars_weaken is_repr_char); [apply repr_char_is_ascii|].
  apply repr_chars.
Qed.

End ReprAlphabet.

Section Tokens.

(** Two texts that agree, each a word without spaces followed by a space
    and a remainder, agree word by word. *)
Lemma split_at_space (s s' t t' : string) :
  all_chars not_space s = true ->
  all_chars not_space s' = true ->
  s ++ " " ++ t = s' ++ " " ++ t' ->
  s = s' /\ t = t'.
Proof.
  revert s'. induction s as [|c s IH]; intros [|c' s'] Hs Hs' H.
  - simpl in H. now injection H.
  - simpl in H. injection H as Hc _. subst c'.
    simpl in Hs'. discriminate Hs'.
  - simpl in H. injection H as Hc _. subst c.
    simpl in Hs. discriminate Hs.
  - simpl in H. injection H as Hc H. subst c'.
    simpl in Hs, Hs'.
    apply andb_true_iff in Hs. apply andb_true_iff in Hs'.
    destruct (IH s' (proj2 Hs) (proj2 Hs') H) as [-> ->]. now split.
Qed.

Lemma tool_op_no_space (t : tool) : all_chars not_space (tool_op t) = true.
Proof.
  destruct t; reflexivity.
Qed.

Lemma tool_op_injective (t t' : tool) : tool_op t = tool_op t' -> t = t'.
Proof.
  destruct t, t'; intros H; try reflexivity; discriminate H.
Qed.

(** A result sentence can be taken apart again: it determines both
    operand renderings, the operator and the rendering of the result. *)
Lemma result_text_injective (a a' b b' r r' : float) (op op' : string) :
  all_chars not_space op = true ->
  all_chars not_space op' = true ->
  Spec.result_text a op b r = Spec.result_text a' op' b' r' ->
  repr a = repr a' /\ op = op' /\ repr b = repr b' /\ repr r = repr r'.
Proof.
  intros Hop Hop' H. unfold Spec.result_text in H.
  apply (f_equal (fun s => substring 14 (String.length s - 14) s)) in H.
  assert (Hcut : forall x, substring 14 (String.length ("The result of " ++ x) - 14)
                             ("The result of " ++ x) = x).
  { intros x. simpl. rewrite Nat.sub_0_r. clear.
    induction x as [|c x IH]; simpl; [reflexivity | now rewrite IH]. }
  rewrite !Hcut in H.
  destruct (split_at_space _ _ _ _ (repr_no_space a) (repr_no_space a') H)
    as [Ha H1].
  destruct (split_at_space _ _ _ _ Hop Hop' H1) as [Ho H2].
  destruct (split_at_space _ _ _ _ (repr_no_space b) (repr_no_space b') H2)
    as [Hb H3].
  simpl in H3. injection H3 as H3.
  repeat split; assumption.
Qed.

End Tokens.

Section Answers.

(** What any of the four tools hands back, in one equation. *)
Lemma tool_body_returns (t : tool) (a b : float) (g : server) :
  value (tool_body t a b g) =
  inr (if tool_guard t b then DIVIDE_BY_ZERO
       else Spec.result_text a (tool_op t) b (tool_result t a b)).
Proof.
  destruct t; cbn [tool_body tool_guard tool_op tool_result].
  - now rewrite add_run.
  - now rewrite multiply_run.
  - now rewrite subtract_run.
  - destruct (float_eq b (of_int 0)) eqn:Hb.
    + now rewrite divide_run_zero.
    + now rewrite divide_run_nonzero.
Qed.

Lemma tool_guard_divide (t : tool) (b : float) :
  tool_guard t b = true -> t = ToolDivide.
Proof.
  destruct t; simpl; intros H; try discriminate H; reflexivity.
Qed.

Lemma result_text_all_chars (p : ascii -> bool) (a b r : float) (op : string) :
  all_chars p "The result of = " = true ->
  all_chars p (repr a) = true ->
  all_chars p (repr b) = true ->
  all_chars p (repr r) = true ->
  all_chars p (Spec.result_text a op b r) = all_chars p op.
Proof.
  intros Hlit Ha Hb Hr. unfold Spec.result_text.
  rewrite !all_chars_append, Ha, Hb, Hr.
  simpl in Hlit. simpl.
  repeat (apply andb_true_iff in Hlit; destruct Hlit as [?H Hlit]).
  repeat match goal with
         | H : p _ = true |- _ => rewrite H; clear H
         end.
  simpl. now rewrite !andb_true_r.
Qed.

Lemma unguarded_answer_not_sentinel (t : tool) (a b : float) (g : server) :
  tool_guard t b = false ->
  value (tool_body t a b g) <> inr DIVIDE_BY_ZERO.
Proof.
  intros G. rewrite tool_body_returns, G. cbv iota.
  intros H. apply (result_text_not_sentinel a (tool_op t) b (tool_result t a b)).
  congruence.
Qed.

End Answers.

(** X1: The answer of a call tells which tool was called: two calls that hand
    back the same string are calls of the same tool. *)
Theorem answers_tell_tools_apart
    (t t' : tool) (a b a' b' : float) (g g' : server) :
  value (tool_body t a b g) = value (tool_body t' a' b' g') ->
  t = t'.
Proof.
  rewrite !tool_body_returns. intros H. injection H as H.
  destruct (tool_guard t b) eqn:Gt, (tool_guard t' b') eqn:Gt'.
  - now rewrite (tool_guard_divide _ _ Gt), (tool_guard_divide _ _ Gt').
  - symmetry in H. now apply result_text_not_sentinel in H.
  - now apply result_text_not_sentinel in H.
  - apply tool_op_injective.
    apply (result_text_injective _ _ _ _ _ _ _ _
             (tool_op_no_space t) (tool_op_no_space t') H).
Qed.

Lemma answers_tell_tools_apart_witness :
  value (tool_body ToolAdd (of_int 2) (of_int 3) mcp) =
  value (tool_body ToolAdd (of_int 2) (of_int 3) mcp) /\
  ToolAdd = ToolAdd.
Proof.
  split; [reflexivity|].
  apply (answers_tell_tools_apart ToolAdd ToolAdd (of_int 2) (of_int 3)
           (of_int 2) (of_int 3) mcp mcp).
  reflexivity.
Defined.

(** X2: A result sentence can be read back: if two calls hand back the same
    string and it is not the error sentinel, their operands are rendered
    alike, first operand and second, and so are their results. *)
Theorem answer_determines_operands
    (t t' : tool) (a b a' b' : float) (g g' : server) :
  value (tool_body t a b g) = value (tool_body t' a' b' g') ->
  value (tool_body t a b g) <> inr DIVIDE_BY_ZERO ->
  repr a = repr a' /\ repr b = repr b' /\
  repr (tool_result t a b) = repr (tool_result t' a' b').
Proof.
  rewrite !tool_body_returns. intros H Hne. injection H as H.
  destruct (tool_guard t b) eqn:Gt; [now elim Hne|].
  destruct (tool_guard t' b') eqn:Gt'.
  - now apply result_text_not_sentinel in H.
  - destruct (result_text_injective _ _ _ _ _ _ _ _
               (tool_op_no_space t) (tool_op_no_space t') H)
      as (Ha & _ & Hb & Hr).
    now repeat split.
Qed.

Lemma answer_determines_operands_witness :
  value (tool_body ToolDivide (of_int 10) (of_int 2) mcp) =
  value (tool_body ToolDivide (of_int 10) (of_int 2) mcp) /\
  value (tool_body ToolDivide (of_int 10) (of_int 2) mcp) <> inr DIVIDE_BY_ZERO /\
  repr (of_int 10) = repr (of_int 10) /\ repr (of_int 2) = repr (of_int 2) /\
  repr (tool_result ToolDivide (of_int 10) (of_int 2)) =
  repr (tool_result ToolDivide (of_int 10) (of_int 2)).
Proof.
  assert (Hne : value (tool_body ToolDivide (of_int 10) (of_int 2) mcp) <>
                inr DIVIDE_BY_ZERO).
  { apply unguarded_answer_not_sentinel. reflexivity. }
  split; [reflexivity|]. split; [exact Hne|].
  apply (answer_determines_operands ToolDivide ToolDivide (of_int 10) (of_int 2)
           (of_int 10) (of_int 2) mcp mcp); [reflexivity | exact Hne].
Defined.

(** X3: What [add] and [subtract] hand back is pure ASCII, whatever the
    operands; what [multiply] hands back never is, because of its operator
    literal; what [divide] hands back is ASCII exactly when it is the
    error sentinel. *)
Theorem answers_ascii (a b : float) (g : server) :
  (exists s, value (add a b g) = inr s /\ all_chars is_ascii_char s = true) /\
  (exists s, value (subtract a b g) = inr s /\ all_chars is_ascii_char s = true) /\
  (exists s, value (multiply a b g) = inr s /\ all_chars is_ascii_char s = false) /\
  (exists s, value (divide a b g) = inr s /\
             all_chars is_ascii_char s = float_eq b (of_int 0)).
Proof.
  assert (Htext : forall op r,
             all_chars is_ascii_char (Spec.result_text a op b r) =
             all_chars is_ascii_char op).
  { intros op r. apply result_text_all_chars;
      [reflexivity | apply repr_is_ascii ..]. }
  split; [|split; [|split]].
  - eexists. rewrite add_run. split; [reflexivity|]. now rewrite Htext.
  - eexists. rewrite subtract_run. split; [reflexivity|]. now rewrite Htext.
  - eexists. rewrite multiply_run. split; [reflexivity|]. now rewrite Htext.
  - destruct (float_eq b (of_int 0)) eqn:Hb.
    + eexists. rewrite divide_run_zero by exact Hb. split; reflexivity.
    + eexists. rewrite divide_run_nonzero by exact Hb.
      split; [reflexivity|]. now rewrite Htext.
Qed.

(** ** Arithmetic facts the tools inherit *)

Section FloatFacts.

Lemma float_add_comm (x y : float) : float_add x y = float_add y x.
Proof.
  unfold float_add.
  destruct x as [sx|sx| |sx mx ex], y as [sy|sy| |sy my ey];
    try reflexivity; try (destruct sx, sy; reflexivity).
  unfold SFadd. rewrite (Z.min_comm ex ey). f_equal. apply Z.add_comm.
Qed.

Lemma float_mul_comm (x y : float) : float_mul x y = float_mul y x.
Proof.
  unfold float_mul.
  destruct x as [sx|sx| |sx mx ex], y as [sy|sy| |sy my ey];
    try reflexivity; try (destruct sx, sy; reflexivity).
  unfold SFmul.
  now rewrite (xorb_comm sx sy), (Pos.mul_comm mx my), (Z.add_comm ex ey).
Qed.

Lemma float_sub_diag (x : float) :
  float_sub x x =
  match x with
  | S754_zero _ | S754_finite _ _ _ => pos_zero
  | _ => nan
  end.
Proof.
  unfold float_sub.
  destruct x as [s|s| |s m e]; try (destruct s; reflexivity); [reflexivity|].
  unfold SFsub. now rewrite Z.sub_diag.
Qed.

Lemma float_sub_zero (x : float) : float_sub x pos_zero = x.
Proof.
  destruct x as [s|s| |s m e]; try reflexivity; destruct s; reflexivity.
Qed.

Lemma float_add_zero (x : float) :
  float_add x pos_zero =
  match x with
  | S754_zero _ => pos_zero
  | _ => x
  end.
Proof.
  destruct x as [s|s| |s m e]; try reflexivity; destruct s; reflexivity.
Qed.

Lemma float_nan_absorbs (t : tool) (x : float) :
  tool_result t nan x = nan /\ tool_result t x nan = nan.
Proof.
  destruct t, x as [s|s| |s m e]; split; reflexivity.
Qed.

End FloatFacts.

(** X4: [add] is commutative in what it reports: swapping the operands swaps
    their renderings in the sentence and leaves the reported sum as it
    was. *)
Theorem add_reports_same_sum_swapped (a b : float) (g : server) :
  exists sum,
    value (add a b g) =
    inr ("The result of " ++ repr a ++ " + " ++ repr b ++ " = " ++ sum) /\
    value (add b a g) =
    inr ("The result of " ++ repr b ++ " + " ++ repr a ++ " = " ++ sum).
Proof.
  exists (repr (float_add a b)). rewrite !add_run. cbn [value].
  split; [reflexivity|]. now rewrite (float_add_comm b a).
Qed.

(** X5: [multiply] is commutative in what it reports: swapping the operands
    leaves the reported product as it was. *)
Theorem multiply_reports_same_product_swapped (a b : float) (g : server) :
  exists product,
    value (multiply a b g) =
    inr ("The result of " ++ repr a ++ " " ++ MULTIPLY_OP ++ " " ++ repr b ++
         " = " ++ product) /\
    value (multiply b a g) =
    inr ("The result of " ++ repr b ++ " " ++ MULTIPLY_OP ++ " " ++ repr a ++
         " = " ++ product).
Proof.
  exists (repr (float_mul a b)). rewrite !multiply_run. cbn [value].
  split; [reflexivity|]. now rewrite (float_mul_comm b a).
Qed.

(** X6: [subtract(a, a)] reports 0.0 for every zero or finite [a], also a
    negative one, and nan for an infinite or nan [a]; it never reports
    -0.0. *)
Theorem subtract_self (a : float) (g : server) :
  value (subtract a a g) =
  inr ("The result of " ++ repr a ++ " - " ++ repr a ++ " = " ++
       match a with
       | S754_zero _ | S754_finite _ _ _ => "0.0"
       | _ => "nan"
       end).
Proof.
  rewrite subtract_run. cbn [value]. unfold Spec.result_text.
  rewrite float_sub_diag. now destruct a.
Qed.

(** X7: Zero is neutral: [subtract(a, 0.0)] reports [a] itself for every [a],
    and [add(a, 0.0)] reports [a] itself except for [a = -0.0], where it
    reports 0.0. *)
Theorem zero_is_neutral (a : float) (g : server) :
  value (subtract a pos_zero g) =
  inr ("The result of " ++ repr a ++ " - 0.0 = " ++ repr a) /\
  value (add a pos_zero g) =
  inr ("The result of " ++ repr a ++ " + 0.0 = " ++
       match a with
       | S754_zero _ => "0.0"
       | _ => repr a
       end).
Proof.
  rewrite subtract_run, add_run. cbn [value]. unfold Spec.result_text.
  rewrite float_sub_zero, float_add_zero. split; [reflexivity|].
  now destruct a.
Qed.

(** X8: A nan operand is reported, not refused: with nan on either side every
    tool reports nan as its result, save that [divide] with a zero divisor
    still returns the error sentinel. *)
Theorem nan_operand_reports_nan (t : tool) (x : float) (g : server) :
  value (tool_body t x nan g) =
  inr ("The result of " ++ repr x ++ " " ++ tool_op t ++ " nan = nan") /\
  value (tool_body t nan x g) =
  inr (if tool_guard t x then DIVIDE_BY_ZERO
       else "The result of nan " ++ tool_op t ++ " " ++ repr x ++ " = nan").
Proof.
  rewrite !tool_body_returns.
  destruct (float_nan_absorbs t x) as [Hl Hr].
  unfold Spec.result_text. rewrite Hl, Hr.
  split; [|reflexivity].
  now destruct t.
Qed.

(** X9: The operations IEEE calls invalid are reported as nan, not raised:
    the sum of opposite infinities, the difference of like infinities, the
    product of a zero and an infinity, the quotient of two infinities. *)
Theorem invalid_operations_report_nan (s s' : bool) (g : server) :
  value (add (S754_infinity s) (S754_infinity (negb s)) g) =
  inr ("The result of " ++ repr (S754_infinity s) ++ " + " ++
       repr (S754_infinity (negb s)) ++ " = nan") /\
  value (subtract (S754_infinity s) (S754_infinity s) g) =
  inr ("The result of " ++ repr (S754_infinity s) ++ " - " ++
       repr (S754_infinity s) ++ " = nan") /\
  value (multiply (S754_zero s) (S754_infinity s') g) =
  inr ("The result of " ++ repr (S754_zero s) ++ " " ++ MULTIPLY_OP ++ " " ++
       repr (S754_infinity s') ++ " = nan") /\
  value (multiply (S754_infinity s) (S754_zero s') g) =
  inr ("The result of " ++ repr (S754_infinity s) ++ " " ++ MULTIPLY_OP ++ " " ++
       repr (S754_zero s') ++ " = nan") /\
  value (divide (S754_infinity s) (S754_infinity s') g) =
  inr ("The result of " ++ repr (S754_infinity s) ++ " " ++ DIVIDE_OP ++ " " ++
       repr (S754_infinity s') ++ " = nan").
Proof.
  rewrite add_run, subtract_run, !multiply_run.
  rewrite divide_run_nonzero by (now destruct s').
  destruct s, s'; repeat split; reflexivity.
Qed.

(** X10: A finite number divided by an infinity is reported as a zero, signed
    by the two signs, and no error is raised. *)
Theorem divide_by_infinity (s s' : bool) (m : positive) (e : Z) (g : server) :
  value (divide (S754_finite s m e) (S754_infinity s') g) =
  inr ("The result of " ++ repr (S754_finite s m e) ++ " " ++ DIVIDE_OP ++ " " ++
       repr (S754_infinity s') ++ " = " ++ (if xorb s s' then "-0.0" else "0.0")).
Proof.
  rewrite divide_run_nonzero by (now destruct s').
  cbn [value]. unfold Spec.result_text. reflexivity.
Qed.

(** X11: The guard of [divide] is exact: [divide] returns the error sentinel on
    precisely the operands for which the bare division [a / b] raises
    [ZeroDivisionError]. *)
Theorem guard_matches_zero_division (a b : float) (g : server) :
  value (py_truediv a b g) = inl ZeroDivisionError <->
  value (divide a b g) = inr DIVIDE_BY_ZERO.
Proof.
  change pos_zero with (of_int 0) in *.
  unfold py_truediv, bind, evaluate, raise, ret. cbn [value final performed].
  change pos_zero with (of_int 0).
  destruct (float_eq b (of_int 0)) eqn:Hb.
  - rewrite divide_run_zero by exact Hb. split; reflexivity.
  - rewrite divide_run_nonzero by exact Hb. cbn [value].
    split; [discriminate|].
    intros H. exfalso.
    apply (result_text_not_sentinel a DIVIDE_OP b (float_quot a b)). congruence.
Qed.

(** X12: Serving any sequence of calls answers every one of them, and every
    answer is a string: no call of the sequence raises. *)
Theorem serve_never_faults (cs : list call) (g : server) :
  List.length (snd (serve cs g)) = List.length cs /\
  Forall (fun r => exists s, r = inr s) (snd (serve cs g)).
Proof.
  rewrite serve_answers. cbn [snd]. split; [apply length_map|].
  apply Forall_forall. intros r Hr. apply in_map_iff in Hr.
  destruct Hr as (c & <- & _). unfold answer, invoke.
  rewrite tool_body_returns. eexists. reflexivity.
Qed.

(** ** Exact arithmetic on integers *)

Section Exact.

Local Open Scope Z_scope.

Lemma iter_xO_value (p n : positive) :
  Z.pos (Pos.iter xO p n) = Z.pos p * 2 ^ Z.pos n.
Proof.
  induction n as [|n IH] using Pos.peano_ind.
  - simpl. lia.
  - rewrite Pos.iter_succ, (Pos2Z.inj_xO (Pos.iter xO p n)), IH, Pos2Z.inj_succ,
      Z.pow_succ_r by lia.
    lia.
Qed.

Lemma digits2_iter_xO (p n : positive) :
  digits2_pos (Pos.iter xO p n) = (digits2_pos p + n)%positive.
Proof.
  induction n as [|n IH] using Pos.peano_ind.
  - simpl. lia.
  - rewrite Pos.iter_succ. simpl. rewrite IH. lia.
Qed.

Lemma shr_iter_xO (n q : positive) :
  iter_pos shr_1 n
    {| shr_m := Z.pos (Pos.iter xO q n); shr_r := false; shr_s := false |} =
  {| shr_m := Z.pos q; shr_r := false; shr_s := false |}.
Proof.
  revert q. induction n as [n IH|n IH|]; intros q; simpl.
  - now rewrite !IH.
  - now rewrite !IH.
  - reflexivity.
Qed.

Lemma digits2_bounds (p : positive) :
  2 ^ (Z.pos (digits2_pos p) - 1) <= Z.pos p < 2 ^ Z.pos (digits2_pos p).
Proof.
  induction p as [p IH|p IH|]; simpl digits2_pos.
  - rewrite Pos2Z.inj_succ, (Pos2Z.inj_xI p).
    replace (Z.succ (Z.pos (digits2_pos p)) - 1) with
      (Z.succ (Z.pos (digits2_pos p) - 1)) by lia.
    rewrite !Z.pow_succ_r by lia. lia.
  - rewrite Pos2Z.inj_succ, (Pos2Z.inj_xO p).
    replace (Z.succ (Z.pos (digits2_pos p)) - 1) with
      (Z.succ (Z.pos (digits2_pos p) - 1)) by lia.
    rewrite !Z.pow_succ_r by lia. lia.
  - simpl. lia.
Qed.

Lemma digits2_unique (p : positive) (d : Z) :
  2 ^ (d - 1) <= Z.pos p < 2 ^ d -> Z.pos (digits2_pos p) = d.
Proof.
  intros [Hlo Hhi]. pose proof (digits2_bounds p) as [Blo Bhi].
  assert (0 < d).
  { destruct (Z.lt_ge_cases 0 d) as [|Hd]; [assumption|].
    rewrite (Z.pow_neg_r 2 (d - 1)) in Hlo by lia.
    destruct (Z.eq_dec d 0) as [->|]; [simpl in Hhi; lia|].
    rewrite Z.pow_neg_r in Hhi by lia. lia. }
  destruct (Z.lt_trichotomy (Z.pos (digits2_pos p)) d) as [Hlt|[Heq|Hgt]];
    [|exact Heq|].
  - assert (2 ^ Z.pos (digits2_pos p) <= 2 ^ (d - 1))
      by (apply Z.pow_le_mono_r; lia).
    lia.
  - assert (2 ^ d <= 2 ^ (Z.pos (digits2_pos p) - 1))
      by (apply Z.pow_le_mono_r; lia).
    lia.
Qed.

Lemma shr_fexp_full (m : positive) (e : Z) :
  Z.pos (digits2_pos m) = 53 -> -1074 <= e ->
  shr_fexp prec emax (Z.pos m) e loc_Exact =
  ({| shr_m := Z.pos m; shr_r := false; shr_s := false |}, e).
Proof.
  intros Hd He.
  unfold shr_fexp, fexp, emin, prec, emax. cbn [Zdigits2 shr_record_of_loc].
  rewrite Hd. replace (Z.max (53 + e - 53) (3 - 1024 - 53) - e) with 0 by lia.
  reflexivity.
Qed.

Lemma shr_fexp_shifted (m n : positive) (e : Z) :
  Z.pos (digits2_pos m) = 53 -> -1074 <= e + Z.pos n ->
  shr_fexp prec emax (Z.pos (Pos.iter xO m n)) e loc_Exact =
  ({| shr_m := Z.pos m; shr_r := false; shr_s := false |}, e + Z.pos n).
Proof.
  intros Hd He.
  unfold shr_fexp, fexp, emin, prec, emax. cbn [Zdigits2 shr_record_of_loc].
  rewrite digits2_iter_xO, Pos2Z.inj_add, Hd.
  replace (Z.max (53 + Z.pos n + e - 53) (3 - 1024 - 53) - e) with (Z.pos n) by lia.
  cbn [shr]. now rewrite shr_iter_xO.
Qed.

(** A mantissa of full width at an exponent in range is left as it is. *)
Lemma round_aux_id (s : bool) (m : positive) (e : Z) :
  Z.pos (digits2_pos m) = 53 -> -1074 <= e <= 971 ->
  binary_round_aux prec emax s (Z.pos m) e loc_Exact = S754_finite s m e.
Proof.
  intros Hd He. unfold binary_round_aux.
  rewrite shr_fexp_full by (assumption || lia).
  cbn [shr_m loc_of_shr_record round_nearest_even].
  rewrite shr_fexp_full by (assumption || lia). cbn [shr_m].
  unfold emax, prec.
  replace (e <=? 1024 - 53) with true by (symmetry; apply Z.leb_le; lia).
  reflexivity.
Qed.

(** A mantissa of full width followed by zero bits is rounded to itself,
    exactly. *)
Lemma round_aux_shifted (s : bool) (m n : positive) (e : Z) :
  Z.pos (digits2_pos m) = 53 -> -1074 <= e + Z.pos n <= 971 ->
  binary_round_aux prec emax s (Z.pos (Pos.iter xO m n)) e loc_Exact =
  S754_finite s m (e + Z.pos n).
Proof.
  intros Hd He. unfold binary_round_aux.
  rewrite shr_fexp_shifted by (assumption || lia).
  cbn [shr_m loc_of_shr_record round_nearest_even].
  rewrite shr_fexp_full by (assumption || lia). cbn [shr_m].
  unfold emax, prec.
  replace (e + Z.pos n <=? 1024 - 53) with true by (symmetry; apply Z.leb_le; lia).
  reflexivity.
Qed.

Lemma digits2_scaled (M m : positive) (j k : Z) :
  0 <= j -> 0 <= k ->
  Z.pos M * 2 ^ j = Z.pos m * 2 ^ k ->
  Z.pos (digits2_pos M) + j = Z.pos (digits2_pos m) + k.
Proof.
  intros Hj Hk H.
  pose proof (digits2_bounds M) as [Mlo Mhi].
  pose proof (digits2_bounds m) as [mlo mhi].
  set (a := Z.pos (digits2_pos M)) in *. set (b := Z.pos (digits2_pos m)) in *.
  assert (Ha : 0 < a) by (unfold a; lia). assert (Hb : 0 < b) by (unfold b; lia).
  assert (P2j : 0 < 2 ^ j) by (apply Z.pow_pos_nonneg; lia).
  assert (P2k : 0 < 2 ^ k) by (apply Z.pow_pos_nonneg; lia).
  assert (L1 : 2 ^ (a - 1 + j) <= Z.pos M * 2 ^ j)
    by (rewrite Z.pow_add_r by lia; nia).
  assert (U1 : Z.pos M * 2 ^ j < 2 ^ (a + j))
    by (rewrite Z.pow_add_r by lia; nia).
  assert (L2 : 2 ^ (b - 1 + k) <= Z.pos m * 2 ^ k)
    by (rewrite Z.pow_add_r by lia; nia).
  assert (U2 : Z.pos m * 2 ^ k < 2 ^ (b + k))
    by (rewrite Z.pow_add_r by lia; nia).
  destruct (Z.lt_trichotomy (a + j) (b + k)) as [Hlt|[Heq|Hgt]]; [|exact Heq|].
  - assert (2 ^ (a + j) <= 2 ^ (b - 1 + k)) by (apply Z.pow_le_mono_r; lia). lia.
  - assert (2 ^ (b + k) <= 2 ^ (a - 1 + j)) by (apply Z.pow_le_mono_r; lia). lia.
Qed.

Lemma pos_of_scaled (M m : positive) (k : Z) :
  0 < k -> Z.pos M = Z.pos m * 2 ^ k -> M = Pos.iter xO m (Z.to_pos k).
Proof.
  intros Hk H. apply Pos2Z.inj. rewrite iter_xO_value, Z2Pos.id by lia. exact H.
Qed.

(** Rounding a number that a full-width mantissa represents exactly gives
    that mantissa, whether the number is written with too few bits or with
    too many. *)
Lemma binary_round_exact (s : bool) (M m : positive) (e j k : Z) :
  Z.pos (digits2_pos m) = 53 -> 0 <= j -> 0 <= k ->
  Z.pos M * 2 ^ j = Z.pos m * 2 ^ k ->
  j = 0 \/ k = 0 ->
  -1074 <= e + k - j <= 971 ->
  binary_round prec emax s M e = S754_finite s m (e + k - j).
Proof.
  intros Hd Hj Hk H Hjk He.
  pose proof (digits2_scaled M m j k Hj Hk H) as Hdig. rewrite Hd in Hdig.
  unfold binary_round, shl_align, fexp, emin, prec, emax.
  replace (Z.max (Z.pos (digits2_pos M) + e - 53) (3 - 1024 - 53))
    with (e + k - j) by lia.
  replace (e + k - j - e) with (k - j) by lia.
  destruct Hjk as [-> | ->].
  - (* too many bits, or just enough *)
    rewrite Z.pow_0_r, Z.mul_1_r in H.
    replace (e + k - 0) with (e + k) by lia.
    replace (k - 0) with k by lia.
    destruct k as [|k|k]; [| |lia].
    + rewrite Z.pow_0_r, Z.mul_1_r in H. injection H as ->.
      replace (e + 0) with e by lia. apply round_aux_id; [assumption | lia].
    + rewrite (pos_of_scaled M m (Z.pos k)) by (lia || assumption).
      apply round_aux_shifted; [assumption | simpl; lia].
  - (* too few bits *)
    rewrite Z.pow_0_r, Z.mul_1_r in H.
    replace (e + 0 - j) with (e - j) by lia.
    destruct j as [|j|j]; [| |lia].
    + rewrite Z.pow_0_r, Z.mul_1_r in H. injection H as ->.
      replace (e - 0) with e by lia. apply round_aux_id; [assumption | lia].
    + change (0 - Z.pos j) with (Z.neg j). cbv iota.
      assert (E : m = Pos.iter xO M j)
        by (apply (pos_of_scaled m M (Z.pos j)); [lia | now symmetry]).
      rewrite <- E.
      apply round_aux_id; [assumption | lia].
Qed.

Lemma digits2_small (P : positive) :
  Z.pos P < 2 ^ 53 -> Z.pos (digits2_pos P) <= 53.
Proof.
  intros H. pose proof (digits2_bounds P) as [Lo _].
  destruct (Z.le_gt_cases (Z.pos (digits2_pos P)) 53) as [|Hgt]; [assumption|].
  assert (2 ^ 53 <= 2 ^ (Z.pos (digits2_pos P) - 1))
    by (apply Z.pow_le_mono_r; lia).
  lia.
Qed.

Lemma full_width_value (P : positive) :
  Z.pos (digits2_pos P) <= 53 ->
  Z.pos (full_width P) = Z.pos P * 2 ^ (53 - Z.pos (digits2_pos P)).
Proof.
  intros H. unfold full_width. rewrite Z2Pos.id; [reflexivity|].
  assert (0 < 2 ^ (53 - Z.pos (digits2_pos P))) by (apply Z.pow_pos_nonneg; lia).
  nia.
Qed.

Lemma full_width_digits (P : positive) :
  Z.pos (digits2_pos P) <= 53 -> Z.pos (digits2_pos (full_width P)) = 53.
Proof.
  intros H.
  pose proof (digits2_scaled (full_width P) P 0 (53 - Z.pos (digits2_pos P))) as D.
  rewrite Z.pow_0_r, Z.mul_1_r in D.
  specialize (D ltac:(lia) ltac:(lia) (full_width_value P H)). lia.
Qed.

(** An integer below 2**53 in magnitude, written with any number of
    trailing zero bits, is rounded to the same double: no bit is lost. *)
Lemma binary_round_scaled (s : bool) (P M : positive) (K : Z) :
  Z.pos (digits2_pos P) <= 53 -> 0 <= K ->
  Z.pos M = Z.pos P * 2 ^ K ->
  binary_round prec emax s M (- K) =
  S754_finite s (full_width P) (Z.pos (digits2_pos P) - 53).
Proof.
  intros Hd HK HM.
  pose proof (full_width_value P Hd) as Hv.
  pose proof (full_width_digits P Hd) as Hw.
  set (t := 53 - Z.pos (digits2_pos P)) in *.
  destruct (Z.le_gt_cases K t) as [Hle|Hgt].
  - replace (Z.pos (digits2_pos P) - 53) with (- K + 0 - (t - K)) by lia.
    apply binary_round_exact; try assumption; try lia.
    rewrite HM, Hv, Z.pow_0_r, Z.mul_1_r, <- Z.mul_assoc, <- Z.pow_add_r by lia.
    f_equal. f_equal. lia.
  - replace (Z.pos (digits2_pos P) - 53) with (- K + (K - t) - 0) by lia.
    apply binary_round_exact; try assumption; try lia.
    rewrite HM, Hv, Z.pow_0_r, Z.mul_1_r, <- Z.mul_assoc, <- Z.pow_add_r by lia.
    f_equal. f_equal. lia.
Qed.

Lemma binary_round_small (s : bool) (P : positive) :
  Z.pos P < 2 ^ 53 ->
  binary_round prec emax s P 0 =
  S754_finite s (full_width P) (Z.pos (digits2_pos P) - 53).
Proof.
  intros H. change 0 with (- 0) at 1.
  apply binary_round_scaled; [apply digits2_small; assumption | lia |].
  rewrite Z.pow_0_r. lia.
Qed.

Lemma binary_normalize_scaled (z K : Z) :
  Z.abs z < 2 ^ 53 -> 0 <= K ->
  binary_normalize prec emax (z * 2 ^ K) (- K) false = of_int z.
Proof.
  intros Hz HK.
  assert (P2 : 0 < 2 ^ K) by (apply Z.pow_pos_nonneg; lia).
  unfold of_int, binary_normalize.
  destruct z as [|P|P].
  - reflexivity.
  - destruct (Z.pos P * 2 ^ K) as [|M|M] eqn:E; [nia| |nia].
    rewrite (binary_round_small false P) by lia.
    apply binary_round_scaled; [apply digits2_small; lia | lia | now symmetry].
  - destruct (Z.neg P * 2 ^ K) as [|M|M] eqn:E; [nia|nia|].
    rewrite (binary_round_small true P) by lia.
    apply binary_round_scaled; [apply digits2_small; lia | lia | lia].
Qed.

Lemma of_int_signed (s : bool) (P : positive) :
  Z.pos P < 2 ^ 53 ->
  of_int (cond_Zopp s (Z.pos P)) =
  S754_finite s (full_width P) (Z.pos (digits2_pos P) - 53).
Proof.
  intros H. destruct s; unfold of_int; simpl; now apply binary_round_small.
Qed.

Lemma shl_align_value (m : positive) (e e' : Z) :
  e' <= e -> Z.pos (fst (shl_align m e e')) = Z.pos m * 2 ^ (e - e').
Proof.
  intros H. unfold shl_align.
  destruct (e' - e) as [|d|d] eqn:E; cbn [fst].
  - replace (e - e') with 0 by lia. rewrite Z.pow_0_r. lia.
  - lia.
  - rewrite iter_xO_value. f_equal. f_equal. lia.
Qed.

(** The mantissa of an integer, aligned at a lower exponent [e'], is the
    integer itself followed by [- e'] zero bits. *)
Lemma aligned_integer (s : bool) (P : positive) (e' : Z) :
  Z.pos P < 2 ^ 53 -> e' <= Z.pos (digits2_pos P) - 53 ->
  cond_Zopp s
    (Z.pos (fst (shl_align (full_width P) (Z.pos (digits2_pos P) - 53) e'))) =
  cond_Zopp s (Z.pos P) * 2 ^ (- e').
Proof.
  intros HP He. pose proof (digits2_small P HP) as Hd.
  rewrite shl_align_value, full_width_value by assumption.
  rewrite <- Z.mul_assoc, <- Z.pow_add_r by lia.
  replace (53 - Z.pos (digits2_pos P) + (Z.pos (digits2_pos P) - 53 - e'))
    with (- e') by lia.
  destruct s; cbn [cond_Zopp]; [symmetry; apply Z.mul_opp_l | reflexivity].
Qed.

Lemma add_signed (sx sy : bool) (Px Py : positive) :
  Z.pos Px < 2 ^ 53 -> Z.pos Py < 2 ^ 53 ->
  Z.abs (cond_Zopp sx (Z.pos Px) + cond_Zopp sy (Z.pos Py)) < 2 ^ 53 ->
  float_add (S754_finite sx (full_width Px) (Z.pos (digits2_pos Px) - 53))
            (S754_finite sy (full_width Py) (Z.pos (digits2_pos Py) - 53)) =
  of_int (cond_Zopp sx (Z.pos Px) + cond_Zopp sy (Z.pos Py)).
Proof.
  intros Hx Hy Hxy.
  pose proof (digits2_small Px Hx). pose proof (digits2_small Py Hy).
  unfold float_add, SFadd.
  set (ez := Z.min (Z.pos (digits2_pos Px) - 53) (Z.pos (digits2_pos Py) - 53)).
  rewrite !aligned_integer by (assumption || (unfold ez; lia)).
  rewrite <- Z.mul_add_distr_r.
  pose proof (binary_normalize_scaled _ (- ez) Hxy ltac:(unfold ez; lia)) as E.
  now rewrite Z.opp_involutive in E.
Qed.

Lemma sub_signed (sx sy : bool) (Px Py : positive) :
  Z.pos Px < 2 ^ 53 -> Z.pos Py < 2 ^ 53 ->
  Z.abs (cond_Zopp sx (Z.pos Px) - cond_Zopp sy (Z.pos Py)) < 2 ^ 53 ->
  float_sub (S754_finite sx (full_width Px) (Z.pos (digits2_pos Px) - 53))
            (S754_finite sy (full_width Py) (Z.pos (digits2_pos Py) - 53)) =
  of_int (cond_Zopp sx (Z.pos Px) - cond_Zopp sy (Z.pos Py)).
Proof.
  intros Hx Hy Hxy.
  pose proof (digits2_small Px Hx). pose proof (digits2_small Py Hy).
  unfold float_sub, SFsub.
  set (ez := Z.min (Z.pos (digits2_pos Px) - 53) (Z.pos (digits2_pos Py) - 53)).
  rewrite !aligned_integer by (assumption || (unfold ez; lia)).
  rewrite <- Z.mul_sub_distr_r.
  pose proof (binary_normalize_scaled _ (- ez) Hxy ltac:(unfold ez; lia)) as E.
  now rewrite Z.opp_involutive in E.
Qed.

Lemma signed_integer (z : Z) :
  z <> 0 -> exists s P, z = cond_Zopp s (Z.pos P) /\ Z.pos P = Z.abs z.
Proof.
  intros Hz. destruct z as [|P|P]; [contradiction| |].
  - now exists false, P.
  - now exists true, P.
Qed.

(** Sums of integers are exact as long as operands and sum stay below
    2**53 in magnitude. *)
Lemma float_add_of_int (x y : Z) :
  Z.abs x < 2 ^ 53 -> Z.abs y < 2 ^ 53 -> Z.abs (x + y) < 2 ^ 53 ->
  float_add (of_int x) (of_int y) = of_int (x + y).
Proof.
  intros Hx Hy Hxy.
  destruct (Z.eq_dec x 0) as [->|Nx]; [|destruct (Z.eq_dec y 0) as [->|Ny]].
  - destruct (Z.eq_dec y 0) as [->|Ny]; [reflexivity|].
    destruct (signed_integer y Ny) as (s & P & -> & HP).
    rewrite Z.add_0_l, of_int_signed by lia. reflexivity.
  - destruct (signed_integer x Nx) as (s & P & -> & HP).
    rewrite Z.add_0_r, of_int_signed by lia. reflexivity.
  - destruct (signed_integer x Nx) as (sx & Px & -> & HPx).
    destruct (signed_integer y Ny) as (sy & Py & -> & HPy).
    rewrite !of_int_signed by lia. apply add_signed; lia.
Qed.

(** Differences of integers are exact under the same bound. *)
Lemma float_sub_of_int (x y : Z) :
  Z.abs x < 2 ^ 53 -> Z.abs y < 2 ^ 53 -> Z.abs (x - y) < 2 ^ 53 ->
  float_sub (of_int x) (of_int y) = of_int (x - y).
Proof.
  intros Hx Hy Hxy.
  destruct (Z.eq_dec x 0) as [->|Nx]; [|destruct (Z.eq_dec y 0) as [->|Ny]].
  - destruct (Z.eq_dec y 0) as [->|Ny]; [reflexivity|].
    destruct (signed_integer y Ny) as (s & P & -> & HP).
    rewrite of_int_signed by lia.
    replace (0 - cond_Zopp s (Z.pos P)) with (cond_Zopp (negb s) (Z.pos P))
      by (destruct s; reflexivity).
    rewrite of_int_signed by lia. reflexivity.
  - destruct (signed_integer x Nx) as (s & P & -> & HP).
    rewrite Z.sub_0_r, of_int_signed by lia. reflexivity.
  - destruct (signed_integer x Nx) as (sx & Px & -> & HPx).
    destruct (signed_integer y Ny) as (sy & Py & -> & HPy).
    rewrite !of_int_signed by lia. apply sub_signed; lia.
Qed.

Lemma round_aux_exact (s : bool) (M m : positive) (e k : Z) :
  Z.pos (digits2_pos m) = 53 -> 0 <= k ->
  Z.pos M = Z.pos m * 2 ^ k ->
  -1074 <= e + k <= 971 ->
  binary_round_aux prec emax s (Z.pos M) e loc_Exact = S754_finite s m (e + k).
Proof.
  intros Hd Hk HM He. destruct k as [|k|k]; [| |lia].
  - rewrite Z.pow_0_r, Z.mul_1_r in HM. injection HM as ->.
    rewrite Z.add_0_r in *. now apply round_aux_id.
  - rewrite (pos_of_scaled M m (Z.pos k)) by (lia || assumption).
    now apply round_aux_shifted.
Qed.

Lemma digits2_product (P Q : positive) :
  Z.pos (digits2_pos P) + Z.pos (digits2_pos Q) - 1 <=
  Z.pos (digits2_pos (P * Q)).
Proof.
  pose proof (digits2_bounds P) as [LP _].
  pose proof (digits2_bounds Q) as [LQ _].
  pose proof (digits2_bounds (P * Q)) as [_ U].
  set (a := Z.pos (digits2_pos P)) in *. set (b := Z.pos (digits2_pos Q)) in *.
  set (c := Z.pos (digits2_pos (P * Q))) in *.
  assert (0 < a) by (unfold a; lia). assert (0 < b) by (unfold b; lia).
  assert (0 < c) by (unfold c; lia).
  assert (L : 2 ^ (a - 1 + (b - 1)) <= Z.pos (P * Q)).
  { rewrite Z.pow_add_r, Pos2Z.inj_mul by lia.
    assert (0 < 2 ^ (a - 1)) by (apply Z.pow_pos_nonneg; lia).
    assert (0 < 2 ^ (b - 1)) by (apply Z.pow_pos_nonneg; lia).
    nia. }
  destruct (Z.le_gt_cases (a + b - 1) c) as [|Hgt]; [assumption|].
  assert (2 ^ c <= 2 ^ (a - 1 + (b - 1))) by (apply Z.pow_le_mono_r; lia).
  lia.
Qed.

Lemma mul_signed (sx sy : bool) (Px Py : positive) :
  Z.pos (Px * Py) < 2 ^ 53 ->
  float_mul (S754_finite sx (full_width Px) (Z.pos (digits2_pos Px) - 53))
            (S754_finite sy (full_width Py) (Z.pos (digits2_pos Py) - 53)) =
  S754_finite (xorb sx sy) (full_width (Px * Py))
              (Z.pos (digits2_pos (Px * Py)) - 53).
Proof.
  intros Hxy.
  assert (Hx : Z.pos Px < 2 ^ 53) by (rewrite Pos2Z.inj_mul in Hxy; nia).
  assert (Hy : Z.pos Py < 2 ^ 53) by (rewrite Pos2Z.inj_mul in Hxy; nia).
  pose proof (digits2_small Px Hx) as Dx. pose proof (digits2_small Py Hy) as Dy.
  pose proof (digits2_small _ Hxy) as Dxy.
  pose proof (digits2_product Px Py) as Dp.
  unfold float_mul, SFmul.
  set (dx := Z.pos (digits2_pos Px)) in *. set (dy := Z.pos (digits2_pos Py)) in *.
  set (d := Z.pos (digits2_pos (Px * Py))) in *.
  replace (d - 53) with (dx - 53 + (dy - 53) + (53 - dx + (53 - dy) - (53 - d)))
    by lia.
  apply round_aux_exact.
  - now apply full_width_digits.
  - lia.
  - rewrite Pos2Z.inj_mul, !full_width_value by assumption.
    fold dx dy d. rewrite Pos2Z.inj_mul.
    assert (E : 2 ^ (53 - dx) * 2 ^ (53 - dy) =
                2 ^ (53 - d) * 2 ^ (53 - dx + (53 - dy) - (53 - d)))
      by (rewrite <- !Z.pow_add_r by lia; f_equal; lia).
    replace (Z.pos Px * 2 ^ (53 - dx) * (Z.pos Py * 2 ^ (53 - dy)))
      with (Z.pos Px * Z.pos Py * (2 ^ (53 - dx) * 2 ^ (53 - dy))) by ring.
    rewrite E. ring.
  - unfold d. lia.
Qed.

(** Products of non-zero integers are exact as long as the product stays
    below 2**53 in magnitude. *)
Lemma float_mul_of_int (x y : Z) :
  x <> 0 -> y <> 0 -> Z.abs (x * y) < 2 ^ 53 ->
  float_mul (of_int x) (of_int y) = of_int (x * y).
Proof.
  intros Nx Ny Hxy.
  destruct (signed_integer x Nx) as (sx & Px & -> & HPx).
  destruct (signed_integer y Ny) as (sy & Py & -> & HPy).
  assert (Hp : Z.pos (Px * Py) < 2 ^ 53).
  { rewrite Pos2Z.inj_mul. destruct sx, sy; cbn [cond_Zopp] in Hxy; lia. }
  assert (Hx : Z.pos Px < 2 ^ 53) by (rewrite Pos2Z.inj_mul in Hp; nia).
  assert (Hy : Z.pos Py < 2 ^ 53) by (rewrite Pos2Z.inj_mul in Hp; nia).
  rewrite !of_int_signed by assumption.
  replace (cond_Zopp sx (Z.pos Px) * cond_Zopp sy (Z.pos Py))
    with (cond_Zopp (xorb sx sy) (Z.pos (Px * Py)))
    by (rewrite Pos2Z.inj_mul; destruct sx, sy; cbn [cond_Zopp xorb]; lia).
  rewrite of_int_signed by assumption.
  now apply mul_signed.
Qed.

Lemma digits2_product_upper (P Q : positive) :
  Z.pos (digits2_pos (P * Q)) <=
  Z.pos (digits2_pos P) + Z.pos (digits2_pos Q).
Proof.
  pose proof (digits2_bounds P) as [_ UP].
  pose proof (digits2_bounds Q) as [_ UQ].
  pose proof (digits2_bounds (P * Q)) as [L _].
  set (a := Z.pos (digits2_pos P)) in *. set (b := Z.pos (digits2_pos Q)) in *.
  set (c := Z.pos (digits2_pos (P * Q))) in *.
  assert (0 < a) by (unfold a; lia). assert (0 < b) by (unfold b; lia).
  assert (U : Z.pos (P * Q) < 2 ^ (a + b)).
  { rewrite Z.pow_add_r, Pos2Z.inj_mul by lia. nia. }
  destruct (Z.le_gt_cases c (a + b)) as [|Hgt]; [assumption|].
  assert (2 ^ (a + b) <= 2 ^ (c - 1)) by (apply Z.pow_le_mono_r; lia).
  lia.
Qed.

Lemma new_location_exact (n : Z) : new_location n 0 = loc_Exact.
Proof.
  unfold new_location. now destruct (Z.even n).
Qed.

Lemma div_eucl_exact (q m : Z) : 0 < m -> Z.div_eucl (q * m) m = (q, 0).
Proof.
  intros Hm. pose proof (Z.div_mul q m ltac:(lia)) as Hq.
  pose proof (Z.mod_mul q m ltac:(lia)) as Hr.
  unfold Z.div, Z.modulo in Hq, Hr.
  destruct (Z.div_eucl (q * m) m) as [q' r']. now subst.
Qed.

Lemma div_signed (sq sy : bool) (Pq Py : positive) :
  Z.pos (Pq * Py) < 2 ^ 53 ->
  float_quot
    (S754_finite (xorb sq sy) (full_width (Pq * Py))
                 (Z.pos (digits2_pos (Pq * Py)) - 53))
    (S754_finite sy (full_width Py) (Z.pos (digits2_pos Py) - 53)) =
  S754_finite sq (full_width Pq) (Z.pos (digits2_pos Pq) - 53).
Proof.
  intros Hxy.
  assert (Hq : Z.pos Pq < 2 ^ 53) by (rewrite Pos2Z.inj_mul in Hxy; nia).
  assert (Hy : Z.pos Py < 2 ^ 53) by (rewrite Pos2Z.inj_mul in Hxy; nia).
  pose proof (digits2_small Pq Hq) as Dq. pose proof (digits2_small Py Hy) as Dy.
  pose proof (digits2_small _ Hxy) as Dxy.
  pose proof (digits2_product_upper Pq Py) as Du.
  pose proof (digits2_product Pq Py) as Dl.
  pose proof (full_width_digits _ Dxy) as Wx.
  pose proof (full_width_digits _ Dy) as Wy.
  pose proof (full_width_value _ Dxy) as Vx.
  pose proof (full_width_value _ Dy) as Vy.
  pose proof (full_width_value _ Dq) as Vq.
  set (dq := Z.pos (digits2_pos Pq)) in *. set (dy := Z.pos (digits2_pos Py)) in *.
  set (dx := Z.pos (digits2_pos (Pq * Py))) in *.
  unfold float_quot, SFdiv, SFdiv_core_binary, fexp, emin, prec, emax.
  cbn [Zdigits2]. rewrite Wx, Wy.
  replace (Z.min (Z.max (53 + (dx - 53) - (53 + (dy - 53)) - 53) (3 - 1024 - 53))
                 (dx - 53 - (dy - 53)))
    with (dx - dy - 53) by lia.
  replace (dx - 53 - (dy - 53) - (dx - dy - 53)) with 53 by lia.
  cbv iota.
  assert (Em : Z.shiftl (Z.pos (full_width (Pq * Py))) 53 =
               Z.pos Pq * 2 ^ (53 + dy - dx) * Z.pos (full_width Py)).
  { rewrite Z.shiftl_mul_pow2, Vx, Vy, Pos2Z.inj_mul by lia.
    assert (E : 2 ^ (53 - dx) * 2 ^ 53 = 2 ^ (53 + dy - dx) * 2 ^ (53 - dy))
      by (rewrite <- !Z.pow_add_r by lia; f_equal; lia).
    replace (Z.pos Pq * Z.pos Py * 2 ^ (53 - dx) * 2 ^ 53)
      with (Z.pos Pq * Z.pos Py * (2 ^ (53 - dx) * 2 ^ 53)) by ring.
    rewrite E. ring. }
  rewrite Em, div_eucl_exact, new_location_exact by lia.
  assert (P2 : 0 < 2 ^ (53 + dy - dx)) by (apply Z.pow_pos_nonneg; lia).
  destruct (Z.pos Pq * 2 ^ (53 + dy - dx)) as [|M|M] eqn:EM; [nia| |nia].
  rewrite xorb_assoc, xorb_nilpotent, xorb_false_r.
  replace (dq - 53) with (dx - dy - 53 + (53 + dy - dx - (53 - dq))) by lia.
  apply round_aux_exact.
  - now apply full_width_digits.
  - lia.
  - rewrite <- EM, Vq. fold dq.
    rewrite <- Z.mul_assoc, <- Z.pow_add_r by lia. f_equal. f_equal. lia.
  - unfold dq. lia.
Qed.

(** Quotients that come out even are exact: dividing a product by one of
    its factors gives back the other factor. *)
Lemma float_quot_of_int (q y : Z) :
  q <> 0 -> y <> 0 -> Z.abs (q * y) < 2 ^ 53 ->
  float_quot (of_int (q * y)) (of_int y) = of_int q.
Proof.
  intros Nq Ny Hxy.
  destruct (signed_integer q Nq) as (sq & Pq & -> & HPq).
  destruct (signed_integer y Ny) as (sy & Py & -> & HPy).
  assert (Hp : Z.pos (Pq * Py) < 2 ^ 53).
  { rewrite Pos2Z.inj_mul. destruct sq, sy; cbn [cond_Zopp] in Hxy; lia. }
  assert (Hq : Z.pos Pq < 2 ^ 53) by (rewrite Pos2Z.inj_mul in Hp; nia).
  assert (Hy : Z.pos Py < 2 ^ 53) by (rewrite Pos2Z.inj_mul in Hp; nia).
  replace (cond_Zopp sq (Z.pos Pq) * cond_Zopp sy (Z.pos Py))
    with (cond_Zopp (xorb sq sy) (Z.pos (Pq * Py)))
    by (rewrite Pos2Z.inj_mul; destruct sq, sy; cbn [cond_Zopp xorb]; lia).
  rewrite !of_int_signed by assumption.
  now apply div_signed.
Qed.

End Exact.

Section ExactTools.

Local Open Scope Z_scope.

(** The double of a non-zero integer below 2**53 is not a zero, so the
    guard of [divide] lets it through. *)
Lemma of_int_not_zero (y : Z) :
  y <> 0 -> Z.abs y < 2 ^ 53 -> float_eq (of_int y) (of_int 0) = false.
Proof.
  intros Ny Hy. destruct (signed_integer y Ny) as (s & P & -> & HP).
  rewrite of_int_signed by lia. now destruct s.
Qed.

End ExactTools.

(** X13: [add] is exact on integers: for integers [x] and [y] that, like their
    sum, are below 2**53 in magnitude, [add(float(x), float(y))] reports
    [float(x + y)], with no rounding. *)
Theorem add_exact_on_integers (x y : Z) (g : server) :
  (Z.abs x < 2 ^ 53)%Z -> (Z.abs y < 2 ^ 53)%Z -> (Z.abs (x + y) < 2 ^ 53)%Z ->
  value (add (of_int x) (of_int y) g) =
  inr ("The result of " ++ repr (of_int x) ++ " + " ++ repr (of_int y) ++
       " = " ++ repr (of_int (x + y))).
Proof.
  intros Hx Hy Hxy. rewrite add_run. cbn [value]. unfold Spec.result_text.
  now rewrite float_add_of_int.
Qed.

Lemma add_exact_on_integers_witness :
  (Z.abs 2 < 2 ^ 53)%Z /\ (Z.abs 3 < 2 ^ 53)%Z /\ (Z.abs (2 + 3) < 2 ^ 53)%Z /\
  value (add (of_int 2) (of_int 3) mcp) =
  inr ("The result of " ++ repr (of_int 2) ++ " + " ++ repr (of_int 3) ++
       " = " ++ repr (of_int (2 + 3))).
Proof.
  split; [reflexivity|]. split; [reflexivity|]. split; [reflexivity|].
  apply (add_exact_on_integers 2 3 mcp); reflexivity.
Defined.

(** X14: [subtract] is exact on integers: for integers [x] and [y] that, like
    their difference, are below 2**53 in magnitude,
    [subtract(float(x), float(y))] reports [float(x - y)]. *)
Theorem subtract_exact_on_integers (x y : Z) (g : server) :
  (Z.abs x < 2 ^ 53)%Z -> (Z.abs y < 2 ^ 53)%Z -> (Z.abs (x - y) < 2 ^ 53)%Z ->
  value (subtract (of_int x) (of_int y) g) =
  inr ("The result of " ++ repr (of_int x) ++ " - " ++ repr (of_int y) ++
       " = " ++ repr (of_int (x - y))).
Proof.
  intros Hx Hy Hxy. rewrite subtract_run. cbn [value]. unfold Spec.result_text.
  now rewrite float_sub_of_int.
Qed.

Lemma subtract_exact_on_integers_witness :
  (Z.abs 10 < 2 ^ 53)%Z /\ (Z.abs 4 < 2 ^ 53)%Z /\ (Z.abs (10 - 4) < 2 ^ 53)%Z /\
  value (subtract (of_int 10) (of_int 4) mcp) =
  inr ("The result of " ++ repr (of_int 10) ++ " - " ++ repr (of_int 4) ++
       " = " ++ repr (of_int (10 - 4))).
Proof.
  split; [reflexivity|]. split; [reflexivity|]. split; [reflexivity|].
  apply (subtract_exact_on_integers 10 4 mcp); reflexivity.
Defined.

(** X15: [multiply] is exact on integers: for non-zero integers [x] and [y]
    whose product is below 2**53 in magnitude,
    [multiply(float(x), float(y))] reports [float(x * y)]. *)
Theorem multiply_exact_on_integers (x y : Z) (g : server) :
  x <> 0%Z -> y <> 0%Z -> (Z.abs (x * y) < 2 ^ 53)%Z ->
  value (multiply (of_int x) (of_int y) g) =
  inr ("The result of " ++ repr (of_int x) ++ " " ++ MULTIPLY_OP ++ " " ++
       repr (of_int y) ++ " = " ++ repr (of_int (x * y))).
Proof.
  intros Nx Ny Hxy. rewrite multiply_run. cbn [value]. unfold Spec.result_text.
  now rewrite float_mul_of_int.
Qed.

Lemma multiply_exact_on_integers_witness :
  3%Z <> 0%Z /\ 7%Z <> 0%Z /\ (Z.abs (3 * 7) < 2 ^ 53)%Z /\
  value (multiply (of_int 3) (of_int 7) mcp) =
  inr ("The result of " ++ repr (of_int 3) ++ " " ++ MULTIPLY_OP ++ " " ++
       repr (of_int 7) ++ " = " ++ repr (of_int (3 * 7))).
Proof.
  split; [discriminate|]. split; [discriminate|]. split; [reflexivity|].
  apply (multiply_exact_on_integers 3 7 mcp);
    [discriminate | discriminate | reflexivity].
Defined.

(** X16: [divide] gives back a factor: for non-zero integers [q] and [y] whose
    product is below 2**53 in magnitude, [divide(float(q * y), float(y))]
    reports [float(q)], with no rounding and no error. *)
Theorem divide_exact_on_integers (q y : Z) (g : server) :
  q <> 0%Z -> y <> 0%Z -> (Z.abs (q * y) < 2 ^ 53)%Z ->
  value (divide (of_int (q * y)) (of_int y) g) =
  inr ("The result of " ++ repr (of_int (q * y)) ++ " " ++ DIVIDE_OP ++ " " ++
       repr (of_int y) ++ " = " ++ repr (of_int q)).
Proof.
  intros Nq Ny Hxy.
  rewrite divide_run_nonzero by (apply of_int_not_zero; [assumption | nia]).
  cbn [value]. unfold Spec.result_text.
  now rewrite float_quot_of_int.
Qed.

Lemma divide_exact_on_integers_witness :
  5%Z <> 0%Z /\ 2%Z <> 0%Z /\ (Z.abs (5 * 2) < 2 ^ 53)%Z /\
  value (divide (of_int (5 * 2)) (of_int 2) mcp) =
  inr ("The result of " ++ repr (of_int (5 * 2)) ++ " " ++ DIVIDE_OP ++ " " ++
       repr (of_int 2) ++ " = " ++ repr (of_int 5)).
Proof.
  split; [discriminate|]. split; [discriminate|]. split; [reflexivity|].
  apply (divide_exact_on_integers 5 2 mcp);
    [discriminate | discriminate | reflexivity].
Defined.

(** X17: A zero times a finite number is a zero whose sign is the product of
    the signs: [multiply(0.0, b)] reports -0.0 for every negative finite
    [b], and 0.0 for every positive one. *)
Theorem multiply_zero_keeps_sign
    (s s' : bool) (m : positive) (e : Z) (g : server) :
  value (multiply (S754_zero s) (S754_finite s' m e) g) =
  inr ("The result of " ++ repr (S754_zero s) ++ " " ++ MULTIPLY_OP ++ " " ++
       repr (S754_finite s' m e) ++ " = " ++
       (if xorb s s' then "-0.0" else "0.0")).
Proof.
  rewrite multiply_run. reflexivity.
Qed.
